(** * RelationshipGraph (lib/sqlalchemy/orm/graph.py)

    A shallow embedding of the relationship graph of mapped classes, of
    its path resolver [get_path] and of its traverser [traverse].

    The module sits on two libraries.  The parts of them that the code
    calls are modelled as follows:
    - [networkx.DiGraph]: an insertion-ordered node list and an
      insertion-ordered table of edges keyed by (source, target), one
      attribute record per key ([add_edge] on a key that is already there
      updates the record in place);
    - [networkx.shortest_path]: a search function taken as a variable,
      with its documented contract as a hypothesis where a statement
      needs it (section [Resolver]), and one executable search that meets
      the contract (module [WalkSearch]);
    - the declarative layer of the mapper: mapped classes are objects
      whose type is one of the two metaclasses that graph.py imports,
      the builtin [type], or a metaclass deriving from one of these, and
      [isinstance] follows the subclass order of the metaclasses. *)

From Stdlib Require Import String List Bool Arith Lia.
Import ListNotations.
Local Open Scope string_scope.
Local Open Scope list_scope.

Set Implicit Arguments.

(** ** Python objects *)

(** The types that a mapped class can have.  The first two are the names
    imported at graph.py:4-5 from the declarative layer
    (orm/decl_api.py).  Both are metaclasses: their instances are mapped
    classes, not mapped objects.  graph.py itself annotates [end], which
    is a node and hence a class, as a [DeclarativeAttributeIntercept].
    [DeclarativeMeta] is the metaclass of the classes made by
    [declarative_base()], the base used in the docstring of [get_path];
    it is declared as a subclass of [DeclarativeAttributeIntercept], the
    metaclass of the classes that derive from [DeclarativeBase].  A class
    mapped with [registry.mapped] or imperatively has the builtin [type]
    as its type, and a project may map classes made with a metaclass of
    its own, which derives from one of the others. *)
Inductive metaclass : Type :=
| DeclarativeMeta
| DeclarativeAttributeIntercept
| BuiltinType
| UserMeta (meta_id : nat) (base : metaclass).

(** A mapped class.  Its identity is the class object; [class_id] stands
    for that identity and [class_meta] is [type(cls)]. *)
Record class_ : Type := MkClass {
  class_id : nat;
  class_meta : metaclass
}.

(** An instance of a mapped class: [inst_class] is its [__class__]. *)
Record instance : Type := MkInstance {
  inst_class : class_;
  inst_id : nat
}.

(** The objects that reach [get_path] and [traverse]. *)
Inductive pyobj : Type :=
| OClass (c : class_)            (* a mapped class *)
| OMeta (m : metaclass)          (* a metaclass object, [type] included *)
| OInst (i : instance)           (* an instance of a mapped class *)
| OColl (items : list instance)  (* a relationship collection *)
| OAttr (c : class_) (key : string) (* a class-level attribute descriptor *)
| OBuiltin (name : string)       (* another type object, by its name *)
| ONone.

Definition metaclass_eq_dec (a b : metaclass) : {a = b} + {a <> b}.
Proof. decide equality. apply Nat.eq_dec. Defined.

Definition class_eq_dec (a b : class_) : {a = b} + {a <> b}.
Proof. decide equality; [apply metaclass_eq_dec | apply Nat.eq_dec]. Defined.

Definition instance_eq_dec (a b : instance) : {a = b} + {a <> b}.
Proof. decide equality; [apply Nat.eq_dec | apply class_eq_dec]. Defined.

Definition pyobj_eq_dec (a b : pyobj) : {a = b} + {a <> b}.
Proof.
  decide equality;
    try apply class_eq_dec; try apply metaclass_eq_dec;
    try apply string_dec; try apply instance_eq_dec.
  apply list_eq_dec, instance_eq_dec.
Defined.

(** The metaclass itself followed by the metaclasses it derives from, up
    to [type]. *)
Fixpoint meta_mro (m : metaclass) : list metaclass :=
  match m with
  | DeclarativeMeta =>
      [DeclarativeMeta; DeclarativeAttributeIntercept; BuiltinType]
  | DeclarativeAttributeIntercept =>
      [DeclarativeAttributeIntercept; BuiltinType]
  | BuiltinType => [BuiltinType]
  | UserMeta _ base => m :: meta_mro base
  end.

(** [issubclass(a, b)] on metaclasses. *)
Definition metaclass_sub (a b : metaclass) : bool :=
  if in_dec metaclass_eq_dec b (meta_mro a) then true else false.

(** [isinstance(x, m)] for a metaclass [m]: only classes are instances of
    a metaclass, through the type they were made with. *)
Definition isinstance_meta (x : pyobj) (m : metaclass) : bool :=
  match x with
  | OClass c => metaclass_sub (class_meta c) m
  | _ => false
  end.

(** [x.__class__]. *)
Definition dunder_class (x : pyobj) : pyobj :=
  match x with
  | OClass c => OMeta (class_meta c)
  | OInst i => OClass (inst_class i)
  | OMeta _ | OBuiltin _ => OMeta BuiltinType
  | OColl _ => OBuiltin "InstrumentedList"
  | OAttr _ _ => OBuiltin "InstrumentedAttribute"
  | ONone => OBuiltin "NoneType"
  end.

(** ** Exceptions and results *)

Inductive exn : Type :=
| GraphNotBuilt                 (* ValueError("The graph has not been built yet.") *)
| NodeNotInGraph (node : pyobj) (* ValueError(f"The node {node} is not in the graph.") *)
| NetworkXNoPath                (* nx.NetworkXNoPath *)
| TypeError                     (* subscript of None *)
| AttributeError                (* getattr on a missing attribute *)
| IndexError.                   (* instances[0] on an empty list *)

Inductive result (A : Type) : Type :=
| Ok (a : A)
| Raise (e : exn).

Arguments Ok {A} a.
Arguments Raise {A} e.

Definition bind {A B : Type} (r : result A) (k : A -> result B) : result B :=
  match r with
  | Ok a => k a
  | Raise e => Raise e
  end.

Notation "x <- r ;; k" := (bind r (fun x => k))
  (at level 61, r at next level, right associativity).

(** ** The directed graph *)

(** The attribute dictionary of an edge, as written at graph.py:21-23. *)
Record edge_data : Type := MkEdge {
  attribute : string;
  plurality : bool
}.

Definition arc : Type := (class_ * class_)%type.

Definition arc_eq_dec (a b : arc) : {a = b} + {a <> b}.
Proof. decide equality; apply class_eq_dec. Defined.

Record DiGraph : Type := MkGraph {
  nodes : list class_;
  edges : list (arc * edge_data)
}.

Definition empty_graph : DiGraph := MkGraph [] [].

Definition mem_class (c : class_) (l : list class_) : bool :=
  if in_dec class_eq_dec c l then true else false.

(** [G.add_node(n)]: a node that is already there keeps its place. *)
Definition add_node (g : DiGraph) (n : class_) : DiGraph :=
  if mem_class n (nodes g) then g
  else MkGraph (nodes g ++ [n]) (edges g).

(** Update of the edge table: the record of an existing key is replaced
    where it stands, a new key goes to the end. *)
Fixpoint put_edge (es : list (arc * edge_data)) (k : arc) (d : edge_data)
  : list (arc * edge_data) :=
  match es with
  | [] => [(k, d)]
  | (k', d') :: rest =>
      if arc_eq_dec k k' then (k', d) :: rest
      else (k', d') :: put_edge rest k d
  end.

(** [G.add_edge(u, v, attribute=a, plurality=p)]: both ends become nodes
    when they are not yet, then the edge record is written. *)
Definition add_edge (g : DiGraph) (u v : class_) (d : edge_data) : DiGraph :=
  let g1 := add_node g u in
  let g2 := add_node g1 v in
  MkGraph (nodes g2) (put_edge (edges g2) (u, v) d).

(** The node that an object is, when it is one: only a mapped class can
    be a node, and membership is by identity. *)
Definition node_of (g : DiGraph) (x : pyobj) : option class_ :=
  match x with
  | OClass c => if mem_class c (nodes g) then Some c else None
  | _ => None
  end.

(** [G.has_node(x)] for any object. *)
Definition has_node (g : DiGraph) (x : pyobj) : bool :=
  match node_of g x with Some _ => true | None => false end.

Fixpoint lookup_edge (es : list (arc * edge_data)) (k : arc) : option edge_data :=
  match es with
  | [] => None
  | (k', d) :: rest => if arc_eq_dec k k' then Some d else lookup_edge rest k
  end.

(** [G.get_edge_data(u, v)]: [None] when there is no such edge. *)
Definition get_edge_data (g : DiGraph) (u v : class_) : option edge_data :=
  lookup_edge (edges g) (u, v).

(** The arcs of the graph, without their records. *)
Definition arcs (g : DiGraph) : list arc := map fst (edges g).

(** ** The registry and graph construction *)

(** [str.lower()] on ASCII text. *)
Definition lower_ascii (c : Ascii.ascii) : Ascii.ascii :=
  let n := Ascii.nat_of_ascii c in
  if ((65 <=? n) && (n <=? 90))%nat%bool then Ascii.ascii_of_nat (n + 32) else c.

Fixpoint lower (s : string) : string :=
  match s with
  | EmptyString => EmptyString
  | String c rest => String (lower_ascii c) (lower rest)
  end.

(** [s.endswith(suffix)]. *)
Definition endswith (s suffix : string) : bool :=
  let n := String.length s in
  let m := String.length suffix in
  if (m <=? n)%nat then String.eqb (substring (n - m) m s) suffix else false.

(** One declared relationship, as the inspector reports it: [rel.key],
    [rel.entity.class_] and the text of [rel.direction]. *)
Record relationship : Type := MkRel {
  key : string;
  entity_class : class_;
  direction_text : string
}.

(** One mapper of the registry: [mapper.class_] and the relationships of
    that class in declaration order. *)
Record mapper : Type := MkMapper {
  mapped_class : class_;
  relationships : list relationship
}.

(** [base.registry.mappers], in iteration order. *)
Definition registry : Type := list mapper.

Definition rel_plurality (r : relationship) : bool :=
  endswith (lower (direction_text r)) "many".

(** The inner loop, graph.py:19-23. *)
Definition add_relationship (src : class_) (g : DiGraph) (r : relationship)
  : DiGraph :=
  add_edge g src (entity_class r) (MkEdge (key r) (rel_plurality r)).

(** The body of the outer loop, graph.py:16-23. *)
Definition add_mapper (g : DiGraph) (m : mapper) : DiGraph :=
  fold_left (add_relationship (mapped_class m)) (relationships m)
            (add_node g (mapped_class m)).

(** The object: the graph attribute (which Python lets be [None]) and the
    flag. *)
Record RelationshipGraph : Type := MkRG {
  support_plurality : bool;
  relationship_graph : option DiGraph
}.

(** [RelationshipGraph.__init__], graph.py:9-23. *)
Definition build_graph (base : registry) : DiGraph :=
  fold_left add_mapper base empty_graph.

Definition init (base : registry) (support : bool) : RelationshipGraph :=
  MkRG support (Some (build_graph base)).

(** ** Path resolution *)

(** graph.py:81-82. *)
Definition resolve_start (start : pyobj) : pyobj :=
  if isinstance_meta start DeclarativeMeta then dunder_class start else start.

(** The list comprehension of graph.py:95-98: the attribute of the edge
    between each two neighbours of the node path.  [get_edge_data] gives
    [None] for a pair that is no edge, and subscripting it raises. *)
Fixpoint path_attributes (g : DiGraph) (path : list class_)
  : result (list string) :=
  match path with
  | u :: ((v :: _) as rest) =>
      match get_edge_data g u v with
      | None => Raise TypeError
      | Some d => attrs <- path_attributes g rest ;; Ok (attribute d :: attrs)
      end
  | _ => Ok []
  end.

(** What [traverse] returns: the list [instances] itself, or one Python
    object, which is element 0 of that list or the [None] of
    graph.py:114.  An element 0 that is [None] and the [None] of line
    114 are the same returned value. *)
Inductive traversed : Type :=
| Instances (l : list pyobj)
| Object (x : pyobj).

Section Resolver.

(** [nx.shortest_path(G, source, target)]: the node path, or [None] for
    [NetworkXNoPath]. *)
Variable shortest_path : DiGraph -> class_ -> class_ -> option (list class_).

(** [RelationshipGraph.get_path], graph.py:78-98. *)
Definition get_path (self : RelationshipGraph) (start end_ : pyobj)
           (raise_err : bool) : result (option (list string)) :=
  match relationship_graph self with
  | None => Raise GraphNotBuilt
  | Some g =>
      let start := resolve_start start in
      match node_of g start with
      | None => Raise (NodeNotInGraph start)
      | Some s =>
          match node_of g end_ with
          | None => Raise (NodeNotInGraph end_)
          | Some t =>
              match shortest_path g s t with
              | None => if raise_err then Raise NetworkXNoPath else Ok None
              | Some path =>
                  attrs <- path_attributes g path ;; Ok (Some attrs)
              end
          end
      end
  end.

(** [RelationshipGraph.has_path], graph.py:26-28. *)
Definition has_path (self : RelationshipGraph) (start end_ : pyobj)
  : result bool :=
  path <- get_path self start end_ false ;;
  Ok (match path with Some _ => true | None => false end).

(** ** Traversal *)

(** [getattr(x, attr)] on live objects: the instance collaborator. *)
Variable getattr : pyobj -> string -> result pyobj.

(** The comprehension of graph.py:117, [[getattr(x, attr) for x in
    instances]]: one entry per element, in order; the first read that
    raises ends it. *)
Fixpoint read_all (instances : list pyobj) (attr : string)
  : result (list pyobj) :=
  match instances with
  | [] => Ok []
  | x :: rest =>
      y <- getattr x attr ;;
      ys <- read_all rest attr ;;
      Ok (y :: ys)
  end.

(** The loop of graph.py:116-117. *)
Fixpoint traverse_loop (instances : list pyobj) (path : list string)
  : result (list pyobj) :=
  match path with
  | [] => Ok instances
  | attr :: rest =>
      next <- read_all instances attr ;;
      traverse_loop next rest
  end.

(** [RelationshipGraph.traverse], graph.py:112-118. *)
Definition traverse (self : RelationshipGraph) (start end_ : pyobj)
           (raise_err : bool) : result traversed :=
  path <- get_path self start end_ raise_err ;;
  match path with
  | None => Ok (Object ONone)
  | Some path =>
      instances <- traverse_loop [start] path ;;
      if support_plurality self then Ok (Instances instances)
      else
        match instances with
        | [] => Raise IndexError
        | x :: _ => Ok (Object x)
        end
  end.

End Resolver.

(** ** Walks and the contract of the search *)

(** [walk g s t p]: [p] is the node list of a directed walk of [g] from
    [s] to [t]; it has [length p - 1] edges. *)
Inductive walk (g : DiGraph) : class_ -> class_ -> list class_ -> Prop :=
| walk_stop : forall s, walk g s s [s]
| walk_step : forall s v t p,
    In (s, v) (arcs g) -> walk g v t p -> walk g s t (s :: p).

(** What the library promises of [shortest_path] without a weight, for a
    source and a target that are nodes: the answer is a walk between
    them, no walk between them is shorter, [NetworkXNoPath] means there
    is none, and edge records play no part. *)
Record shortest_path_contract
       (sp : DiGraph -> class_ -> class_ -> option (list class_)) : Prop := {
  sp_walk : forall g s t p,
      In s (nodes g) -> In t (nodes g) ->
      sp g s t = Some p -> walk g s t p;
  sp_minimal : forall g s t p q,
      In s (nodes g) -> In t (nodes g) ->
      sp g s t = Some p -> walk g s t q -> length p <= length q;
  sp_no_path : forall g s t q,
      In s (nodes g) -> In t (nodes g) ->
      sp g s t = None -> ~ walk g s t q;
  sp_unweighted : forall g g' s t,
      nodes g = nodes g' -> arcs g = arcs g' -> sp g s t = sp g' s t
}.

(** ** An executable search that meets the contract *)

Module WalkSearch.

(** The targets of the arcs that leave [u], in table order. *)
Definition successors (g : DiGraph) (u : class_) : list class_ :=
  map snd (filter (fun a => if class_eq_dec (fst a) u then true else false)
                  (arcs g)).

(** Walks are kept newest node first.  [extend g p] lists the walks one
    arc longer than [p]. *)
Definition extend (g : DiGraph) (p : list class_) : list (list class_) :=
  match p with
  | [] => []
  | u :: _ => map (fun v => v :: p) (successors g u)
  end.

Definition ends_at (t : class_) (p : list class_) : bool :=
  match p with
  | u :: _ => if class_eq_dec u t then true else false
  | [] => false
  end.

(** Level by level: the first level that holds a walk ending at [t]
    answers; [fuel] bounds the number of levels still to open. *)
Fixpoint search (g : DiGraph) (t : class_) (frontier : list (list class_))
         (fuel : nat) : option (list class_) :=
  match find (ends_at t) frontier with
  | Some p => Some (rev p)
  | None =>
      match fuel with
      | O => None
      | S fuel' => search g t (flat_map (extend g) frontier) fuel'
      end
  end.

Definition shortest_path (g : DiGraph) (s t : class_)
  : option (list class_) :=
  search g t [[s]] (List.length (arcs g)).

(** [level g s k]: every walk of [k] arcs that leaves [s]. *)
Fixpoint level (g : DiGraph) (s : class_) (k : nat) : list (list class_) :=
  match k with
  | O => [[s]]
  | S k' => flat_map (extend g) (level g s k')
  end.

(** [rwalk g s p]: [p], newest node first, is a walk that leaves [s]. *)
Inductive rwalk (g : DiGraph) (s : class_) : list class_ -> Prop :=
| rwalk_start : rwalk g s [s]
| rwalk_ext : forall u v p,
    rwalk g s (u :: p) -> In (u, v) (arcs g) -> rwalk g s (v :: u :: p).

End WalkSearch.

(** ** Declarations in build order *)

(** The edge that one relationship of class [src] asks for. *)
Definition declared_edge (src : class_) (r : relationship) : arc * edge_data :=
  ((src, entity_class r), MkEdge (key r) (rel_plurality r)).

(** Every declared relationship of the registry as (source, target) with
    its attribute record, in the order in which [__init__] meets them. *)
Definition declared (base : registry) : list (arc * edge_data) :=
  flat_map (fun m => map (declared_edge (mapped_class m)) (relationships m))
           base.

(** Writing a list of declarations into an edge table, oldest first. *)
Definition put_all (es : list (arc * edge_data)) (l : list (arc * edge_data))
  : list (arc * edge_data) :=
  fold_left (fun acc e => put_edge acc (fst e) (snd e)) l es.

(** The graph has an edge from [s] to [t] that carries attribute [a]. *)
Definition edge_present (g : DiGraph) (s t : class_) (a : string) : Prop :=
  exists d, In ((s, t), d) (edges g) /\ attribute d = a.

(** [labelled_walk g s t l]: [l] lists, in order, the attributes of the
    edges of a directed walk of [g] from [s] to [t]. *)
Inductive labelled_walk (g : DiGraph) : class_ -> class_ -> list string -> Prop :=
| labelled_stop : forall s, labelled_walk g s s []
| labelled_step : forall s v t a l,
    edge_present g s v a -> labelled_walk g v t l ->
    labelled_walk g s t (a :: l).

(** The same graph with the plurality flag of every edge rewritten. *)
Definition map_plurality (f : arc -> bool -> bool) (g : DiGraph) : DiGraph :=
  MkGraph (nodes g)
          (map (fun e => (fst e, MkEdge (attribute (snd e))
                                        (f (fst e) (plurality (snd e)))))
               (edges g)).

(** ** The schema of the docstring of [get_path] *)

Module Family.

Section Schema.

(** The metaclass the three classes are made with: [DeclarativeMeta]
    for [declarative_base()], as in the docstring,
    [DeclarativeAttributeIntercept] for a [DeclarativeBase] subclass. *)
Variable meta : metaclass.

Definition Grandparent : class_ := MkClass 0 meta.
Definition Parent : class_ := MkClass 1 meta.
Definition Child : class_ := MkClass 2 meta.

Definition one_to_many : string := "RelationshipDirection.ONETOMANY".
Definition many_to_one : string := "RelationshipDirection.MANYTOONE".

Definition base : registry :=
  [ MkMapper Grandparent [ MkRel "parent" Parent one_to_many ];
    MkMapper Parent [ MkRel "grandparent" Grandparent many_to_one;
                      MkRel "child" Child one_to_many ];
    MkMapper Child [ MkRel "parent" Parent many_to_one ] ].

(** A registry in which nothing leads from [Child] anywhere. *)
Definition base_without_parent_link : registry :=
  [ MkMapper Grandparent [ MkRel "parent" Parent one_to_many ];
    MkMapper Parent [ MkRel "child" Child one_to_many ];
    MkMapper Child [] ].

(** Two relationships between the same two classes. *)
Definition base_two_links : registry :=
  [ MkMapper Parent [ MkRel "child" Child one_to_many;
                      MkRel "favourite_child" Child many_to_one ];
    MkMapper Child [] ].

(** Live objects: one grandparent with two parents, each with one
    child. *)
Definition grandpa : instance := MkInstance Grandparent 0.
Definition mum : instance := MkInstance Parent 1.
Definition dad : instance := MkInstance Parent 2.
Definition kid1 : instance := MkInstance Child 3.
Definition kid2 : instance := MkInstance Child 4.

Definition declares (c : class_) (k : string) : bool :=
  existsb (fun m =>
             if class_eq_dec (mapped_class m) c
             then existsb (fun r => String.eqb (key r) k) (relationships m)
             else false) base.

(** Attribute reads on these objects.  A relationship name read off
    an instance gives the related instance or collection; read off a
    class it gives the class-level descriptor; anything else has no
    such attribute. *)
Definition getattr (x : pyobj) (k : string) : result pyobj :=
  match x with
  | OInst i =>
      if negb (declares (inst_class i) k) then Raise AttributeError
      else
        match inst_id i, k with
        | 0, "parent" => Ok (OColl [mum; dad])
        | 1, "grandparent" => Ok (OInst grandpa)
        | 2, "grandparent" => Ok (OInst grandpa)
        | 1, "child" => Ok (OColl [kid1])
        | 2, "child" => Ok (OColl [kid2])
        | 3, "parent" => Ok (OInst mum)
        | 4, "parent" => Ok (OInst dad)
        | _, _ => Ok ONone
        end
  | OClass c =>
      if declares c k then Ok (OAttr c k) else Raise AttributeError
  | _ => Raise AttributeError
  end.

End Schema.

End Family.

(** ** Reference notions for the resolver and the traverser *)

(** [relationship_chain base s t l]: starting at class [s], the names
    [l] can be followed one after the other, each one the key of a
    relationship that the registry declares on the class reached so far,
    and they end at class [t]. *)
Inductive relationship_chain (base : registry)
  : class_ -> class_ -> list string -> Prop :=
| chain_stop : forall s, relationship_chain base s s []
| chain_step : forall m r t l,
    In m base -> In r (relationships m) ->
    relationship_chain base (entity_class r) t l ->
    relationship_chain base (mapped_class m) t (key r :: l).

(** Reading the names of [path] one after the other off [x], as in
    [x.a1.a2...an]; the first read that raises ends it. *)
Fixpoint read_chain (getattr : pyobj -> string -> result pyobj)
         (x : pyobj) (path : list string) : result pyobj :=
  match path with
  | [] => Ok x
  | attr :: rest => y <- getattr x attr ;; read_chain getattr y rest
  end.

(** Every arc of the graph joins two of its nodes. *)
Definition arcs_closed (g : DiGraph) : Prop :=
  forall s t, In (s, t) (arcs g) -> In s (nodes g) /\ In t (nodes g).

(** * Properties *)

(** ** The executable search meets the contract *)

Module WalkSearchFacts.
Import WalkSearch.

Lemma in_successors g u v :
  In v (successors g u) <-> In (u, v) (arcs g).
Proof.
  unfold successors. rewrite in_map_iff. split.
  - intros [[a b] [Hb Hin]]. simpl in Hb. subst b.
    apply filter_In in Hin. destruct Hin as [Hin Hf]. simpl in Hf.
    destruct (class_eq_dec a u); [subst; assumption | discriminate].
  - intros Hin. exists (u, v). split; [reflexivity |].
    apply filter_In. split; [assumption |]. simpl.
    destruct (class_eq_dec u u); congruence.
Qed.

Lemma in_extend g p r :
  In r (extend g p) <->
  exists u p' v, p = u :: p' /\ r = v :: p /\ In (u, v) (arcs g).
Proof.
  destruct p as [| u p']; simpl.
  - split; [tauto | intros (u & p' & v & H & _); discriminate].
  - rewrite in_map_iff. split.
    + intros (v & Hr & Hv). apply in_successors in Hv.
      exists u, p', v. auto.
    + intros (u0 & p0 & v & Hp & Hr & Hv). inversion Hp; subst.
      exists v. split; [reflexivity | now apply in_successors].
Qed.

Lemma level_rwalk g s k p :
  In p (level g s k) <-> rwalk g s p /\ List.length p = S k.
Proof.
  revert p. induction k as [| k IH]; intros p; simpl.
  - split.
    + intros [<- | []]. split; [constructor | reflexivity].
    + intros [Hw Hl]. left. inversion Hw; subst; [reflexivity |].
      simpl in Hl. discriminate.
  - rewrite in_flat_map. split.
    + intros (q & Hq & Hp). apply IH in Hq. destruct Hq as [Hw Hl].
      apply in_extend in Hp. destruct Hp as (u & p' & v & -> & -> & Hv).
      split; [now constructor | simpl in *; lia].
    + intros [Hw Hl]. inversion Hw; subst; [discriminate |].
      exists (u :: p0). split.
      * apply IH. split; [assumption | simpl in *; lia].
      * apply in_extend. exists u, p0, v. auto.
Qed.

Lemma walk_snoc g s u v p :
  walk g s u p -> In (u, v) (arcs g) -> walk g s v (p ++ [v]).
Proof.
  induction 1 as [s | s w t p Hin Hw IH]; intros Hv; simpl.
  - apply walk_step with v; [assumption | constructor].
  - apply walk_step with w; auto.
Qed.

Lemma rwalk_walk g s p :
  rwalk g s p -> exists t p', p = t :: p' /\ walk g s t (rev p).
Proof.
  induction 1 as [| u v p Hr IH Hin].
  - exists s, []. split; [reflexivity | constructor].
  - destruct IH as (t & p' & Heq & Hw). inversion Heq; subst t p'.
    exists v, (u :: p). split; [reflexivity |].
    change (rev (v :: u :: p)) with (rev (u :: p) ++ [v]).
    now apply walk_snoc with u.
Qed.

Lemma rwalk_from g s v p :
  rwalk g v p -> In (s, v) (arcs g) -> rwalk g s (p ++ [s]).
Proof.
  induction 1 as [| u w p Hr IH Hin]; intros Hs; simpl.
  - apply rwalk_ext; [constructor | assumption].
  - apply rwalk_ext; [apply IH; assumption | assumption].
Qed.

Lemma walk_rwalk g s t q :
  walk g s t q -> exists p, rev q = t :: p /\ rwalk g s (rev q).
Proof.
  induction 1 as [s | s v t q Hin Hw IH].
  - exists []. split; [reflexivity | constructor].
  - destruct IH as (p & Heq & Hr). simpl. rewrite Heq.
    exists (p ++ [s]). split; [reflexivity |].
    rewrite <- Heq. now apply rwalk_from with v.
Qed.

Lemma search_some g s t fuel : forall k p,
    search g t (level g s k) fuel = Some p ->
    exists j r,
      k <= j /\ In r (level g s j) /\ ends_at t r = true /\ p = rev r /\
      forall i r', k <= i < j -> In r' (level g s i) -> ends_at t r' = false.
Proof.
  induction fuel as [| fuel IH]; intros k p; simpl;
    destruct (find (ends_at t) (level g s k)) as [r |] eqn:Hf.
  - intros [= <-]. apply find_some in Hf. exists k, r.
    repeat split; try tauto; try lia.
  - discriminate.
  - intros [= <-]. apply find_some in Hf. exists k, r.
    repeat split; try tauto; try lia.
  - intros Hs. apply (IH (S k)) in Hs.
    destruct Hs as (j & r & Hj & Hr & He & Hp & Hmin).
    exists j, r. repeat split; try assumption; try lia.
    intros i r' Hi Hin. destruct (Nat.eq_dec i k) as [-> | Hne].
    + eapply find_none; eassumption.
    + apply Hmin with i; [lia | assumption].
Qed.

Lemma search_none g s t fuel : forall k,
    search g t (level g s k) fuel = None ->
    forall i r, k <= i <= k + fuel -> In r (level g s i) -> ends_at t r = false.
Proof.
  induction fuel as [| fuel IH]; intros k; simpl;
    destruct (find (ends_at t) (level g s k)) as [r |] eqn:Hf;
    try discriminate; intros Hs i r' Hi Hin.
  - assert (i = k) by lia. subst. eapply find_none; eassumption.
  - destruct (Nat.eq_dec i k) as [-> | Hne].
    + eapply find_none; eassumption.
    + apply (IH (S k) Hs i); [lia | assumption].
Qed.

Lemma walk_head g s t p : walk g s t p -> exists p', p = s :: p'.
Proof. destruct 1; eauto. Qed.

Lemma walk_suffix g t s l2 : forall l1 v,
    walk g v t (l1 ++ s :: l2) -> walk g s t (s :: l2).
Proof.
  induction l1 as [| a l1 IH]; intros v Hw; simpl in Hw.
  - destruct (walk_head Hw) as [p' Hp]. inversion Hp; subst. assumption.
  - inversion Hw; subst.
    + destruct l1; discriminate.
    + eapply IH; eassumption.
Qed.

(** Cutting the cycles out of a walk. *)
Lemma walk_simple g s t q :
  walk g s t q ->
  exists q', walk g s t q' /\ NoDup q' /\ List.length q' <= List.length q.
Proof.
  induction 1 as [s | s v t q Hin Hw IH].
  - exists [s]. repeat split; [constructor | | lia].
    constructor; [simpl; tauto | constructor].
  - destruct IH as (q' & Hw' & Hnd & Hlen).
    destruct (in_dec class_eq_dec s q') as [Hs | Hs].
    + apply in_split in Hs. destruct Hs as (l1 & l2 & ->).
      exists (s :: l2). split; [eapply walk_suffix; eassumption |].
      split; [eapply NoDup_app_remove_l; eassumption |].
      rewrite length_app in Hlen. simpl in *. lia.
    + exists (s :: q'). split; [now apply walk_step with v |].
      split; [now constructor | simpl; lia].
Qed.

(** A walk without a repeated node has no more arcs than the graph. *)
Lemma simple_walk_arcs g s t q :
  walk g s t q -> NoDup q ->
  exists l, NoDup l /\ incl l (arcs g) /\ List.length q = S (List.length l) /\
            forall a, In a l -> In (fst a) q.
Proof.
  induction 1 as [s | s v t q Hin Hw IH]; intros Hnd.
  - exists []. repeat split; [constructor | intros a [] | intros a []].
  - inversion Hnd as [| x l Hnot Hnd']; subst.
    destruct (IH Hnd') as (l & Hl & Hincl & Hlen & Hfst).
    exists ((s, v) :: l). repeat split.
    + constructor; [| assumption]. intros Hc. apply Hnot.
      apply (Hfst _ Hc).
    + intros a [<- | Ha]; [assumption | now apply Hincl].
    + simpl. lia.
    + intros a [<- | Ha]; [now left | right; now apply Hfst].
Qed.

Lemma simple_walk_bound g s t q :
  walk g s t q -> NoDup q -> List.length q <= S (List.length (arcs g)).
Proof.
  intros Hw Hnd.
  destruct (simple_walk_arcs Hw Hnd) as (l & Hl & Hincl & Hlen & _).
  pose proof (NoDup_incl_length Hl Hincl). lia.
Qed.

Lemma walk_in_level g s t q :
  walk g s t q ->
  exists r, In r (level g s (List.length q - 1)) /\ ends_at t r = true /\
            rev r = q.
Proof.
  intros Hw. destruct (walk_rwalk Hw) as (p & Heq & Hr).
  exists (rev q). split; [| split].
  - apply level_rwalk. split; [assumption |].
    rewrite length_rev. destruct (walk_head Hw) as [p' ->]. simpl. lia.
  - rewrite Heq. simpl. destruct (class_eq_dec t t); congruence.
  - apply rev_involutive.
Qed.

Lemma extend_arcs g g' : arcs g = arcs g' -> forall p, extend g p = extend g' p.
Proof.
  intros H [| u p]; [reflexivity |]. unfold extend, successors.
  now rewrite H.
Qed.

Lemma search_arcs g g' t fuel :
  arcs g = arcs g' ->
  forall frontier, search g t frontier fuel = search g' t frontier fuel.
Proof.
  intros H. induction fuel as [| fuel IH]; intros frontier; simpl.
  - reflexivity.
  - destruct (find (ends_at t) frontier); [reflexivity |].
    rewrite (flat_map_ext _ _ (extend_arcs g g' H)). apply IH.
Qed.

Theorem shortest_path_meets_contract :
  shortest_path_contract WalkSearch.shortest_path.
Proof.
  constructor; unfold WalkSearch.shortest_path.
  - intros g s t p _ _ Hs.
    apply (@search_some g s t _ 0) in Hs.
    destruct Hs as (j & r & _ & Hr & He & -> & _).
    apply level_rwalk in Hr. destruct Hr as [Hr _].
    destruct (rwalk_walk Hr) as (t' & p' & -> & Hw).
    simpl in He. destruct (class_eq_dec t' t); [subst | discriminate].
    assumption.
  - intros g s t p q _ _ Hs Hq.
    apply (@search_some g s t _ 0) in Hs.
    destruct Hs as (j & r & _ & Hr & He & -> & Hmin).
    apply level_rwalk in Hr. destruct Hr as [_ Hl].
    rewrite length_rev, Hl.
    destruct (walk_in_level Hq) as (r' & Hr' & He' & _).
    destruct (le_lt_dec j (List.length q - 1)) as [Hle | Hlt].
    + destruct (walk_head Hq) as [q' ->]. simpl in *. lia.
    + rewrite (Hmin _ r' (conj (Nat.le_0_l _) Hlt) Hr') in He'. discriminate.
  - intros g s t q _ _ Hs Hq.
    destruct (walk_simple Hq) as (q' & Hq' & Hnd & _).
    pose proof (simple_walk_bound Hq' Hnd) as Hb.
    destruct (walk_in_level Hq') as (r & Hr & He & _).
    rewrite (@search_none g s t _ 0 Hs (List.length q' - 1) r) in He;
      [discriminate | lia | assumption].
  - intros g g' s t _ Ha. rewrite Ha. now apply search_arcs.
Qed.

End WalkSearchFacts.

(** ** Graph construction *)

Section BuildFacts.

Lemma lookup_put_same es k d : lookup_edge (put_edge es k d) k = Some d.
Proof.
  induction es as [| [k' d'] es IH]; simpl.
  - destruct (arc_eq_dec k k); congruence.
  - destruct (arc_eq_dec k k') as [-> | Hne]; simpl.
    + destruct (arc_eq_dec k' k'); congruence.
    + destruct (arc_eq_dec k k'); [contradiction | assumption].
Qed.

Lemma lookup_put_other es k d k' :
  k <> k' -> lookup_edge (put_edge es k d) k' = lookup_edge es k'.
Proof.
  intros Hne. induction es as [| [k0 d0] es IH]; simpl.
  - destruct (arc_eq_dec k' k); congruence.
  - destruct (arc_eq_dec k k0) as [-> | Hk]; simpl.
    + destruct (arc_eq_dec k' k0); congruence.
    + destruct (arc_eq_dec k' k0); [reflexivity | assumption].
Qed.

Lemma keys_put es k d :
  forall k', In k' (map fst (put_edge es k d)) <-> k' = k \/ In k' (map fst es).
Proof.
  induction es as [| [k0 d0] es IH]; intros k'; simpl.
  - intuition congruence.
  - destruct (arc_eq_dec k k0) as [-> | Hk]; simpl.
    + intuition congruence.
    + rewrite IH. intuition congruence.
Qed.

Lemma nodup_put es k d :
  NoDup (map fst es) -> NoDup (map fst (put_edge es k d)).
Proof.
  induction es as [| [k0 d0] es IH]; simpl; intros Hnd.
  - constructor; [simpl; tauto | constructor].
  - inversion Hnd as [| x l Hnot Hnd']; subst.
    destruct (arc_eq_dec k k0) as [-> | Hk]; simpl.
    + now constructor.
    + constructor; [| now apply IH].
      rewrite keys_put. intros [-> | Hin]; [congruence | contradiction].
Qed.

Lemma lookup_in es k d : lookup_edge es k = Some d -> In (k, d) es.
Proof.
  induction es as [| [k0 d0] es IH]; simpl; [discriminate |].
  destruct (arc_eq_dec k k0) as [-> | Hk].
  - intros [= ->]. now left.
  - intros H. right. now apply IH.
Qed.

Lemma in_lookup es k d :
  NoDup (map fst es) -> In (k, d) es -> lookup_edge es k = Some d.
Proof.
  induction es as [| [k0 d0] es IH]; simpl; [tauto |].
  intros Hnd Hin. inversion Hnd as [| x l Hnot Hnd']; subst.
  destruct (arc_eq_dec k k0) as [-> | Hk].
  - destruct Hin as [[= ->] | Hin]; [reflexivity |].
    exfalso. apply Hnot. apply in_map_iff. now exists (k0, d).
  - destruct Hin as [[= -> ->] | Hin]; [congruence | now apply IH].
Qed.

Lemma lookup_keys es k :
  In k (map fst es) -> exists d, lookup_edge es k = Some d.
Proof.
  induction es as [| [k0 d0] es IH]; simpl; [tauto |].
  intros Hin. destruct (arc_eq_dec k k0) as [-> | Hk]; [eauto |].
  destruct Hin as [-> | Hin]; [congruence | now apply IH].
Qed.

(** [add_node] leaves the edge table alone. *)
Lemma edges_add_node g n : edges (add_node g n) = edges g.
Proof. unfold add_node. destruct (mem_class n (nodes g)); reflexivity. Qed.

Lemma edges_add_edge g u v d :
  edges (add_edge g u v d) = put_edge (edges g) (u, v) d.
Proof. unfold add_edge. simpl. now rewrite !edges_add_node. Qed.

Lemma edges_add_mapper g m :
  edges (add_mapper g m) =
  put_all (edges g) (map (declared_edge (mapped_class m)) (relationships m)).
Proof.
  unfold add_mapper, put_all.
  rewrite <- (edges_add_node g (mapped_class m)).
  generalize (add_node g (mapped_class m)) as g0.
  induction (relationships m) as [| r rs IH]; intros g0; simpl.
  - reflexivity.
  - rewrite IH. unfold add_relationship. now rewrite edges_add_edge.
Qed.

Lemma edges_fold_mappers base : forall g,
    edges (fold_left add_mapper base g) = put_all (edges g) (declared base).
Proof.
  induction base as [| m base IH]; intros g; simpl.
  - reflexivity.
  - rewrite IH, edges_add_mapper. unfold put_all, declared. simpl.
    now rewrite fold_left_app.
Qed.

(** After writing [l], a key holds its last record of [l], and keeps the
    old one when [l] does not mention it. *)
Lemma lookup_put_all l : forall es k,
    lookup_edge (put_all es l) k =
    match lookup_edge (rev l) k with
    | Some d => Some d
    | None => lookup_edge es k
    end.
Proof.
  induction l as [| [k0 d0] l IH] using rev_ind; intros es k.
  - reflexivity.
  - unfold put_all in *. rewrite fold_left_app, rev_app_distr. simpl.
    destruct (arc_eq_dec k k0) as [-> | Hk].
    + apply lookup_put_same.
    + rewrite lookup_put_other by congruence. apply IH.
Qed.

Lemma nodup_put_all l : forall es,
    NoDup (map fst es) -> NoDup (map fst (put_all es l)).
Proof.
  unfold put_all. induction l as [| e l IH]; intros es Hnd; simpl.
  - assumption.
  - apply IH. now apply nodup_put.
Qed.

Lemma build_edges base : edges (build_graph base) = put_all [] (declared base).
Proof. unfold build_graph. now rewrite edges_fold_mappers. Qed.

Lemma build_nodup base : NoDup (arcs (build_graph base)).
Proof.
  unfold arcs. rewrite build_edges. apply nodup_put_all. constructor.
Qed.

End BuildFacts.

(** C3, as stated, fails.  With two relationships declared from Parent
    to Child, the first one, "child", is declared but the built graph has
    no edge from Parent to Child that carries it: the second declaration
    wrote over it. *)
Lemma parallel_edge_overwritten :
  let base := Family.base_two_links DeclarativeAttributeIntercept in
  let P := Family.Parent DeclarativeAttributeIntercept in
  let C := Family.Child DeclarativeAttributeIntercept in
  In ((P, C), MkEdge "child" true) (declared base) /\
  In ((P, C), MkEdge "favourite_child" false) (declared base) /\
  ~ edge_present (build_graph base) P C "child".
Proof.
  cbv zeta. split; [| split].
  - vm_compute. auto.
  - vm_compute. auto.
  - intros (d & Hin & Ha). vm_compute in Hin.
    destruct Hin as [Heq | []]. inversion Heq; subst d. discriminate.
Qed.

(** C3, amended.  The graph holds one edge per (source, target) pair, and
    the record of that edge is the one of the relationship declared last
    between the two classes in build order: a declared (source, target,
    attribute) triple is in the built graph exactly when it is the last
    declared between its two classes. *)
Theorem build_keeps_last_declared (base : registry) (s t : class_) :
  NoDup (arcs (build_graph base)) /\
  get_edge_data (build_graph base) s t = lookup_edge (rev (declared base)) (s, t) /\
  (forall a, edge_present (build_graph base) s t a <->
             exists d, lookup_edge (rev (declared base)) (s, t) = Some d /\
                       attribute d = a).
Proof.
  assert (Hget : get_edge_data (build_graph base) s t =
                 lookup_edge (rev (declared base)) (s, t)).
  { unfold get_edge_data. rewrite build_edges, lookup_put_all.
    destruct (lookup_edge (rev (declared base)) (s, t)); reflexivity. }
  split; [apply build_nodup | split; [exact Hget |]].
  intros a. rewrite <- Hget. unfold edge_present, get_edge_data. split.
  - intros (d & Hin & Ha). exists d. split; [| assumption].
    apply in_lookup; [apply build_nodup | assumption].
  - intros (d & Hl & Ha). exists d. split; [now apply lookup_in | assumption].
Qed.

(** ** Path resolution *)

Lemma node_of_some g x c :
  node_of g x = Some c -> x = OClass c /\ In c (nodes g).
Proof.
  destruct x; simpl; try discriminate. unfold mem_class.
  destruct (in_dec class_eq_dec c0 (nodes g)); [| discriminate].
  intros [= ->]. auto.
Qed.

Lemma node_of_class g c : In c (nodes g) -> node_of g (OClass c) = Some c.
Proof.
  intros Hin. simpl. unfold mem_class.
  destruct (in_dec class_eq_dec c (nodes g)); [reflexivity | contradiction].
Qed.

Lemma has_node_class g c : has_node g (OClass c) = true <-> In c (nodes g).
Proof.
  unfold has_node. split.
  - destruct (node_of g (OClass c)) as [c' |] eqn:H; [| discriminate].
    apply node_of_some in H. destruct H as [[= ->] Hin]. auto.
  - intros Hin. now rewrite node_of_class.
Qed.

Lemma has_node_false g x : has_node g x = false -> node_of g x = None.
Proof. unfold has_node. destruct (node_of g x); [discriminate | reflexivity]. Qed.

(** An instance is never taken for a class by graph.py:81, and is no
    node. *)
Lemma resolve_start_instance i : resolve_start (OInst i) = OInst i.
Proof. reflexivity. Qed.

(** A class is replaced by its metaclass exactly when that metaclass is
    [DeclarativeMeta] or derives from it. *)
Lemma resolve_start_class c :
  resolve_start (OClass c) =
  if metaclass_sub (class_meta c) DeclarativeMeta
  then OMeta (class_meta c) else OClass c.
Proof. reflexivity. Qed.

Lemma path_attributes_length g p l :
  path_attributes g p = Ok l -> List.length l = List.length p - 1.
Proof.
  revert l. induction p as [| u p IH]; intros l; simpl.
  - intros [= <-]. reflexivity.
  - destruct p as [| v rest]; [intros [= <-]; reflexivity |].
    destruct (get_edge_data g u v); [| discriminate].
    destruct (path_attributes g (v :: rest)) as [l' |] eqn:Hp;
      simpl; [| discriminate].
    intros [= <-]. pose proof (IH l' eq_refl) as Hl. simpl in *. lia.
Qed.

(** Along a walk every [get_edge_data] succeeds, and the comprehension of
    graph.py:95-98 yields the attributes of its edges in order. *)
Lemma walk_attributes g s t p :
  walk g s t p ->
  exists l, path_attributes g p = Ok l /\ labelled_walk g s t l /\
            S (List.length l) = List.length p.
Proof.
  induction 1 as [s | s v t p Hin Hw IH].
  - exists []. repeat split. constructor.
  - destruct IH as (l & Hp & Hl & Hlen).
    destruct (lookup_keys (edges g) (s, v) Hin) as [d Hd].
    exists (attribute d :: l).
    destruct (WalkSearchFacts.walk_head Hw) as [p' ->].
    change (path_attributes g (s :: v :: p')) with
      (match get_edge_data g s v with
       | None => Raise TypeError
       | Some d => attrs <- path_attributes g (v :: p') ;;
                   Ok (attribute d :: attrs)
       end).
    unfold get_edge_data. rewrite Hd, Hp. simpl. repeat split.
    + apply labelled_step with v; [| assumption].
      exists d. split; [now apply lookup_in | reflexivity].
    + simpl in Hlen. lia.
Qed.

Section ResolverFacts.

Variable sp : DiGraph -> class_ -> class_ -> option (list class_).

(** Past the three guards of graph.py:78-87, [get_path] is the search
    followed by the reading of the edge attributes. *)
Lemma get_path_resolved self g start s t r :
  relationship_graph self = Some g ->
  resolve_start start = OClass s ->
  In s (nodes g) -> In t (nodes g) ->
  get_path sp self start (OClass t) r =
  match sp g s t with
  | None => if r then Raise NetworkXNoPath else Ok None
  | Some path => attrs <- path_attributes g path ;; Ok (Some attrs)
  end.
Proof.
  intros Hg Hs Hins Hint. unfold get_path.
  rewrite Hg, Hs, (node_of_class g s Hins), (node_of_class g t Hint).
  reflexivity.
Qed.

(** [NetworkXNoPath] leaves [get_path] only when asked for, and only
    from the search. *)
Lemma get_path_no_path_inv self start end_ r :
  get_path sp self start end_ r = Raise NetworkXNoPath ->
  r = true /\
  exists g s t, relationship_graph self = Some g /\
                node_of g (resolve_start start) = Some s /\
                node_of g end_ = Some t /\ sp g s t = None.
Proof.
  unfold get_path.
  destruct (relationship_graph self) as [g |]; [| discriminate].
  destruct (node_of g (resolve_start start)) as [s |] eqn:Hs;
    [| discriminate].
  destruct (node_of g end_) as [t |] eqn:Ht; [| discriminate].
  destruct (sp g s t) as [p |] eqn:Hsp.
  - destruct (path_attributes g p) as [l | e] eqn:Hp; simpl; [discriminate |].
    intros [= ->]. exfalso. clear Hsp.
    revert Hp. induction p as [| u p IH]; simpl; [discriminate |].
    destruct p as [| v rest]; [discriminate |].
    destruct (get_edge_data g u v); [| discriminate].
    destruct (path_attributes g (v :: rest)); simpl; [discriminate |].
    intros [= ->]. now apply IH.
  - destruct r; [| discriminate]. intros _. split; [reflexivity |].
    exists g, s, t. auto.
Qed.

Hypothesis sp_ok : shortest_path_contract sp.

(** The resolver on two connected nodes: the labels of a walk from the
    resolved start to the end, and no walk between them has fewer
    edges. *)
Lemma get_path_shortest self g start s t r :
  relationship_graph self = Some g ->
  resolve_start start = OClass s ->
  In s (nodes g) -> In t (nodes g) ->
  (exists q, walk g s t q) ->
  exists l, get_path sp self start (OClass t) r = Ok (Some l) /\
            labelled_walk g s t l /\
            forall q, walk g s t q -> S (List.length l) <= List.length q.
Proof.
  intros Hg Hs Hins Hint [q0 Hq0].
  rewrite (@get_path_resolved self g start s t r Hg Hs Hins Hint).
  destruct (sp g s t) as [p |] eqn:Hsp.
  - pose proof (@sp_walk sp sp_ok g s t p Hins Hint Hsp) as Hw.
    destruct (walk_attributes Hw) as (l & Hp & Hl & Hlen).
    exists l. rewrite Hp. simpl. repeat split; [assumption |].
    intros q Hq. rewrite Hlen.
    exact (@sp_minimal sp sp_ok g s t p q Hins Hint Hsp Hq).
  - exfalso. exact (@sp_no_path sp sp_ok g s t q0 Hins Hint Hsp Hq0).
Qed.

(** One edge from the resolved start to a different end: the path is
    the attribute of that edge. *)
Lemma get_path_single_edge self g start s t d r :
  relationship_graph self = Some g ->
  resolve_start start = OClass s ->
  In s (nodes g) -> In t (nodes g) ->
  s <> t -> get_edge_data g s t = Some d ->
  get_path sp self start (OClass t) r = Ok (Some [attribute d]).
Proof.
  intros Hg Hs Hins Hint Hne Hd.
  rewrite (@get_path_resolved self g start s t r Hg Hs Hins Hint).
  assert (Harc : In (s, t) (arcs g)).
  { apply lookup_in in Hd. unfold arcs. apply in_map_iff.
    now exists ((s, t), d). }
  assert (Hst : walk g s t [s; t]).
  { apply walk_step with t; [assumption | constructor]. }
  destruct (sp g s t) as [p |] eqn:Hsp.
  - pose proof (@sp_walk sp sp_ok g s t p Hins Hint Hsp) as Hw.
    pose proof (@sp_minimal sp sp_ok g s t p [s; t] Hins Hint Hsp Hst) as Hlen.
    inversion Hw as [| s' v t' p' Hin Hw']; subst; [contradiction |].
    inversion Hw' as [| s' w t' p'' Hin' Hw'']; subst.
    + simpl. rewrite Hd. reflexivity.
    + destruct (WalkSearchFacts.walk_head Hw'') as [x ->].
      simpl in Hlen. lia.
  - exfalso. exact (@sp_no_path sp sp_ok g s t [s; t] Hins Hint Hsp Hst).
Qed.

(** Start and end the same node: the empty path. *)
Lemma get_path_same_node self g start s r :
  relationship_graph self = Some g ->
  resolve_start start = OClass s ->
  In s (nodes g) ->
  get_path sp self start (OClass s) r = Ok (Some []).
Proof.
  intros Hg Hs Hins.
  rewrite (@get_path_resolved self g start s s r Hg Hs Hins Hins).
  pose proof (walk_stop g s) as Hss.
  destruct (sp g s s) as [p |] eqn:Hsp.
  - pose proof (@sp_walk sp sp_ok g s s p Hins Hins Hsp) as Hw.
    pose proof (@sp_minimal sp sp_ok g s s p [s] Hins Hins Hsp Hss) as Hlen.
    inversion Hw as [| s' v t' p' Hin Hw']; subst; [reflexivity |].
    destruct (WalkSearchFacts.walk_head Hw') as [x ->]. simpl in Hlen. lia.
  - exfalso. exact (@sp_no_path sp sp_ok g s s [s] Hins Hins Hsp Hss).
Qed.

(** No walk from the resolved start to the end: the flag decides
    between the exception and the absent value. *)
Lemma get_path_unconnected self g start s t r :
  relationship_graph self = Some g ->
  resolve_start start = OClass s ->
  In s (nodes g) -> In t (nodes g) ->
  (forall q, ~ walk g s t q) ->
  get_path sp self start (OClass t) r =
  if r then Raise NetworkXNoPath else Ok None.
Proof.
  intros Hg Hs Hins Hint Hno.
  rewrite (@get_path_resolved self g start s t r Hg Hs Hins Hint).
  destruct (sp g s t) as [p |] eqn:Hsp; [| reflexivity].
  exfalso. exact (Hno p (@sp_walk sp sp_ok g s t p Hins Hint Hsp)).
Qed.

(** [NetworkXNoPath] means that the two nodes are not connected. *)
Lemma get_path_no_path_only self start end_ r :
  get_path sp self start end_ r = Raise NetworkXNoPath ->
  r = true /\
  exists g s t, relationship_graph self = Some g /\
                resolve_start start = OClass s /\ end_ = OClass t /\
                In s (nodes g) /\ In t (nodes g) /\
                forall q, ~ walk g s t q.
Proof.
  intros H. apply get_path_no_path_inv in H.
  destruct H as (Hr & g & s & t & Hg & Hs & Ht & Hsp).
  apply node_of_some in Hs. apply node_of_some in Ht.
  destruct Hs as [Hs Hins]. destruct Ht as [Ht Hint].
  split; [assumption |]. exists g, s, t. repeat split; try assumption.
  intros q. exact (@sp_no_path sp sp_ok g s t q Hins Hint Hsp).
Qed.

End ResolverFacts.

(** The lemmas above on the schema of the docstring, built on
    [DeclarativeBase], with the executable search. *)
Example family_shortest :
  let m := DeclarativeAttributeIntercept in
  exists l,
    get_path WalkSearch.shortest_path (init (Family.base m) false)
             (OClass (Family.Child m)) (OClass (Family.Grandparent m)) false =
    Ok (Some l) /\
    labelled_walk (build_graph (Family.base m))
                  (Family.Child m) (Family.Grandparent m) l /\
    forall q, walk (build_graph (Family.base m))
                   (Family.Child m) (Family.Grandparent m) q ->
              S (List.length l) <= List.length q.
Proof.
  cbv zeta.
  apply (@get_path_shortest _ WalkSearchFacts.shortest_path_meets_contract
           (init (Family.base DeclarativeAttributeIntercept) false)
           (build_graph (Family.base DeclarativeAttributeIntercept))).
  - reflexivity.
  - reflexivity.
  - vm_compute. tauto.
  - vm_compute. tauto.
  - exists [Family.Child DeclarativeAttributeIntercept;
            Family.Parent DeclarativeAttributeIntercept;
            Family.Grandparent DeclarativeAttributeIntercept].
    apply walk_step with (Family.Parent DeclarativeAttributeIntercept);
      [vm_compute; tauto |].
    apply walk_step with (Family.Grandparent DeclarativeAttributeIntercept);
      [vm_compute; tauto | constructor].
Qed.

Example family_single_edge :
  let m := DeclarativeAttributeIntercept in
  get_path WalkSearch.shortest_path (init (Family.base m) false)
           (OClass (Family.Child m)) (OClass (Family.Parent m)) false =
  Ok (Some ["parent"]).
Proof.
  cbv zeta.
  apply (@get_path_single_edge _ WalkSearchFacts.shortest_path_meets_contract
           (init (Family.base DeclarativeAttributeIntercept) false)
           (build_graph (Family.base DeclarativeAttributeIntercept))
           (OClass (Family.Child DeclarativeAttributeIntercept))
           (Family.Child DeclarativeAttributeIntercept)
           (Family.Parent DeclarativeAttributeIntercept)
           (MkEdge "parent" false)).
  - reflexivity.
  - reflexivity.
  - vm_compute. tauto.
  - vm_compute. tauto.
  - discriminate.
  - vm_compute. reflexivity.
Qed.

Example family_same_node :
  let m := DeclarativeAttributeIntercept in
  get_path WalkSearch.shortest_path (init (Family.base m) false)
           (OClass (Family.Child m)) (OClass (Family.Child m)) true =
  Ok (Some []).
Proof.
  cbv zeta.
  apply (@get_path_same_node _ WalkSearchFacts.shortest_path_meets_contract
           (init (Family.base DeclarativeAttributeIntercept) false)
           (build_graph (Family.base DeclarativeAttributeIntercept))
           (OClass (Family.Child DeclarativeAttributeIntercept))
           (Family.Child DeclarativeAttributeIntercept)).
  - reflexivity.
  - reflexivity.
  - vm_compute. tauto.
Qed.

Example family_unconnected :
  let m := DeclarativeAttributeIntercept in
  forall r,
    get_path WalkSearch.shortest_path
             (init (Family.base_without_parent_link m) false)
             (OClass (Family.Child m)) (OClass (Family.Grandparent m)) r =
    if r then Raise NetworkXNoPath else Ok None.
Proof.
  cbv zeta. intros r.
  apply (@get_path_unconnected _ WalkSearchFacts.shortest_path_meets_contract
           (init (Family.base_without_parent_link
                    DeclarativeAttributeIntercept) false)
           (build_graph (Family.base_without_parent_link
                           DeclarativeAttributeIntercept))
           (OClass (Family.Child DeclarativeAttributeIntercept))
           (Family.Child DeclarativeAttributeIntercept)).
  - reflexivity.
  - reflexivity.
  - vm_compute. tauto.
  - vm_compute. tauto.
  - intros q Hw. inversion Hw as [| s v t p Hin Hw']; subst.
    vm_compute in Hin. intuition discriminate.
Qed.

(** C7 at its failing input.  In the graph of the docstring's schema a
    class that the registry does not know is given as end.  With the
    schema built on [declarative_base()] and the class Child, a node, as
    start, the error names the metaclass [DeclarativeMeta], not the
    missing end; with the schema built on [DeclarativeBase] and an
    instance of Child as start, it names the instance, not the missing
    end.  This holds for every search and either flag. *)
Theorem get_path_unknown_end_misnamed :
  (let m := DeclarativeMeta in
   let g := build_graph (Family.base m) in
   let stranger := OClass (MkClass 7 m) in
   has_node g (OClass (Family.Child m)) = true /\
   has_node g stranger = false /\
   forall sp raise_err,
     get_path sp (init (Family.base m) false) (OClass (Family.Child m))
              stranger raise_err =
     Raise (NodeNotInGraph (OMeta DeclarativeMeta))) /\
  (let m := DeclarativeAttributeIntercept in
   let g := build_graph (Family.base m) in
   let stranger := OClass (MkClass 7 m) in
   has_node g (dunder_class (OInst (Family.kid1 m))) = true /\
   has_node g stranger = false /\
   forall sp raise_err,
     get_path sp (init (Family.base m) false) (OInst (Family.kid1 m))
              stranger raise_err =
     Raise (NodeNotInGraph (OInst (Family.kid1 m)))).
Proof. cbv zeta. repeat split; vm_compute; reflexivity. Qed.

(** C10.  [has_path] is true exactly when [get_path] with the flag left
    false gives a path, false when it gives the absent value, and raises
    what [get_path] raises, which is never the no-path error. *)
Theorem has_path_spec
        (sp : DiGraph -> class_ -> class_ -> option (list class_))
        (self : RelationshipGraph) (start end_ : pyobj) :
  has_path sp self start end_ =
  match get_path sp self start end_ false with
  | Ok (Some _) => Ok true
  | Ok None => Ok false
  | Raise e => Raise e
  end /\
  has_path sp self start end_ <> Raise NetworkXNoPath.
Proof.
  assert (Heq : has_path sp self start end_ =
                match get_path sp self start end_ false with
                | Ok (Some _) => Ok true
                | Ok None => Ok false
                | Raise e => Raise e
                end).
  { unfold has_path.
    destruct (get_path sp self start end_ false) as [[l |] | e]; reflexivity. }
  split; [exact Heq |].
  rewrite Heq.
  destruct (get_path sp self start end_ false) as [[l |] | e] eqn:Hg;
    try discriminate.
  intros [= ->]. apply get_path_no_path_inv in Hg.
  destruct Hg as [Hr _]. discriminate.
Qed.

(** ** Traversal *)

Section TraverseFacts.

Variable getattr : pyobj -> string -> result pyobj.

(** The comprehension of graph.py:117 gives one entry per element: what
    a read returns goes into the new list as it is. *)
Lemma read_all_length xs attr ys :
  read_all getattr xs attr = Ok ys -> List.length ys = List.length xs.
Proof.
  revert ys. induction xs as [| x xs IH]; intros ys; simpl.
  - intros [= <-]. reflexivity.
  - destruct (getattr x attr) as [y | e]; simpl; [| discriminate].
    destruct (read_all getattr xs attr) as [ys' | e]; simpl; [| discriminate].
    intros [= <-]. simpl. now rewrite (IH ys' eq_refl).
Qed.

Lemma traverse_loop_length path : forall xs ws,
    traverse_loop getattr xs path = Ok ws -> List.length ws = List.length xs.
Proof.
  induction path as [| attr path IH]; intros xs ws; simpl.
  - intros [= <-]. reflexivity.
  - destruct (read_all getattr xs attr) as [next | e] eqn:Hr; simpl;
      [| discriminate].
    intros Hl. rewrite (IH _ _ Hl). now apply read_all_length with attr.
Qed.

(** Each step on a one-element working set leaves the value read, be it
    an instance or a collection, as the one element. *)
Lemma read_all_single x attr y :
  getattr x attr = Ok y -> read_all getattr [x] attr = Ok [y].
Proof. intros H. simpl. now rewrite H. Qed.

End TraverseFacts.

(** C9.  On a graph object built with [support_plurality = b], when
    [get_path] finds a path and the loop over it ends with the working
    set [ws], [traverse] returns the list [ws] itself when [b] is true
    and element 0 of [ws] when [b] is false; [ws] has an element 0. *)
Theorem traverse_result
        (sp : DiGraph -> class_ -> class_ -> option (list class_))
        (getattr : pyobj -> string -> result pyobj)
        (base : registry) (b : bool) (start end_ : pyobj) (raise_err : bool)
        (path : list string) (ws : list pyobj) :
  get_path sp (init base b) start end_ raise_err = Ok (Some path) ->
  traverse_loop getattr [start] path = Ok ws ->
  exists x rest,
    ws = x :: rest /\
    traverse sp getattr (init base b) start end_ raise_err =
    Ok (if b then Instances ws else Object x).
Proof.
  intros Hp Hl. pose proof (traverse_loop_length _ _ _ Hl) as Hlen.
  destruct ws as [| x rest]; [discriminate |].
  exists x, rest. split; [reflexivity |].
  unfold traverse. rewrite Hp. simpl. rewrite Hl. simpl.
  destruct b; reflexivity.
Qed.

Lemma traverse_result_witness :
  let m := DeclarativeAttributeIntercept in
  (exists x rest,
      [OAttr (Family.Child m) "parent"] = x :: rest /\
      traverse WalkSearch.shortest_path (Family.getattr m)
               (init (Family.base m) true)
               (OClass (Family.Child m)) (OClass (Family.Parent m)) false =
      Ok (if true then Instances [OAttr (Family.Child m) "parent"]
          else Object x)) /\
  (exists x rest,
      [OAttr (Family.Child m) "parent"] = x :: rest /\
      traverse WalkSearch.shortest_path (Family.getattr m)
               (init (Family.base m) false)
               (OClass (Family.Child m)) (OClass (Family.Parent m)) false =
      Ok (if false then Instances [OAttr (Family.Child m) "parent"]
          else Object x)).
Proof.
  cbv zeta. split.
  - apply (@traverse_result WalkSearch.shortest_path
             (Family.getattr DeclarativeAttributeIntercept)
             (Family.base DeclarativeAttributeIntercept) true
             (OClass (Family.Child DeclarativeAttributeIntercept))
             (OClass (Family.Parent DeclarativeAttributeIntercept))
             false ["parent"]).
    + vm_compute. reflexivity.
    + vm_compute. reflexivity.
  - apply (@traverse_result WalkSearch.shortest_path
             (Family.getattr DeclarativeAttributeIntercept)
             (Family.base DeclarativeAttributeIntercept) false
             (OClass (Family.Child DeclarativeAttributeIntercept))
             (OClass (Family.Parent DeclarativeAttributeIntercept))
             false ["parent"]).
    + vm_compute. reflexivity.
    + vm_compute. reflexivity.
Defined.

(** ** The flag and the plurality of edges play no part in resolution *)

Lemma build_ignores_flag base b b' :
  relationship_graph (init base b) = relationship_graph (init base b').
Proof. reflexivity. Qed.

Lemma arcs_map_plurality f g : arcs (map_plurality f g) = arcs g.
Proof.
  unfold arcs, map_plurality. simpl. rewrite map_map. now apply map_ext.
Qed.

Lemma lookup_map_plurality f es k :
  lookup_edge
    (map (fun e => (fst e, MkEdge (attribute (snd e))
                                  (f (fst e) (plurality (snd e))))) es) k =
  option_map (fun d => MkEdge (attribute d) (f k (plurality d)))
             (lookup_edge es k).
Proof.
  induction es as [| [k0 d0] es IH]; simpl; [reflexivity |].
  destruct (arc_eq_dec k k0) as [-> | Hk]; [reflexivity | assumption].
Qed.

Lemma node_of_map_plurality f g x : node_of (map_plurality f g) x = node_of g x.
Proof. reflexivity. Qed.

Lemma get_edge_data_map_plurality f g u v :
  get_edge_data (map_plurality f g) u v =
  option_map (fun d => MkEdge (attribute d) (f (u, v) (plurality d)))
             (get_edge_data g u v).
Proof. unfold get_edge_data. apply lookup_map_plurality. Qed.

Lemma path_attributes_step g u v rest :
  path_attributes g (u :: v :: rest) =
  match get_edge_data g u v with
  | None => Raise TypeError
  | Some d => attrs <- path_attributes g (v :: rest) ;;
              Ok (attribute d :: attrs)
  end.
Proof. reflexivity. Qed.

Lemma path_attributes_map_plurality f g p :
  path_attributes (map_plurality f g) p = path_attributes g p.
Proof.
  induction p as [| u p IH]; [reflexivity |].
  destruct p as [| v rest]; [reflexivity |].
  rewrite !path_attributes_step, IH, get_edge_data_map_plurality.
  destruct (get_edge_data g u v); reflexivity.
Qed.

(** C8.  Two graph objects built from the same registry with different
    [support_plurality] give the same [get_path] for every start, end and
    flag; and rewriting the plurality flags of the edges of a graph in
    any way leaves every [get_path] as it was, the search being
    unweighted. *)
Theorem get_path_ignores_plurality
        (sp : DiGraph -> class_ -> class_ -> option (list class_)) :
  shortest_path_contract sp ->
  (forall base start end_ raise_err,
      get_path sp (init base true) start end_ raise_err =
      get_path sp (init base false) start end_ raise_err) /\
  (forall f b b' g start end_ raise_err,
      get_path sp (MkRG b (Some (map_plurality f g))) start end_ raise_err =
      get_path sp (MkRG b' (Some g)) start end_ raise_err).
Proof.
  intros Hsp. split; [reflexivity |].
  intros f b b' g start end_ r. unfold get_path. cbn [relationship_graph].
  rewrite !node_of_map_plurality.
  destruct (node_of g (resolve_start start)) as [s |]; [| reflexivity].
  destruct (node_of g end_) as [t |]; [| reflexivity].
  rewrite (@sp_unweighted sp Hsp (map_plurality f g) g s t eq_refl
             (arcs_map_plurality f g)).
  destruct (sp g s t) as [p |]; [| reflexivity].
  now rewrite path_attributes_map_plurality.
Qed.

Lemma get_path_ignores_plurality_witness :
  let m := DeclarativeAttributeIntercept in
  shortest_path_contract WalkSearch.shortest_path /\
  get_path WalkSearch.shortest_path (init (Family.base m) true)
           (OClass (Family.Child m)) (OClass (Family.Grandparent m)) false =
  get_path WalkSearch.shortest_path (init (Family.base m) false)
           (OClass (Family.Child m)) (OClass (Family.Grandparent m)) false /\
  get_path WalkSearch.shortest_path
           (MkRG true (Some (map_plurality (fun _ p => negb p)
                                           (build_graph (Family.base m)))))
           (OClass (Family.Child m)) (OClass (Family.Grandparent m)) false =
  get_path WalkSearch.shortest_path
           (MkRG false (Some (build_graph (Family.base m))))
           (OClass (Family.Child m)) (OClass (Family.Grandparent m)) false.
Proof.
  cbv zeta.
  pose proof (get_path_ignores_plurality
                WalkSearchFacts.shortest_path_meets_contract) as [H1 H2].
  split; [exact WalkSearchFacts.shortest_path_meets_contract |].
  split; [apply H1 | apply H2].
Defined.

(** ** Where the code departs from its documentation *)

(** An instance given as start is looked up as it is, for every built
    graph: it is no class, so graph.py:81 does not fire and line 84
    rejects it. *)
Lemma get_path_instance_start sp base support i end_ raise_err :
  get_path sp (init base support) (OInst i) end_ raise_err =
  Raise (NodeNotInGraph (OInst i)).
Proof. reflexivity. Qed.

(** A class made with [DeclarativeMeta] given as start is replaced by the
    metaclass, which is no node, for every built graph. *)
Lemma get_path_legacy_class_start sp base support n end_ raise_err :
  get_path sp (init base support) (OClass (MkClass n DeclarativeMeta))
           end_ raise_err =
  Raise (NodeNotInGraph (OMeta DeclarativeMeta)).
Proof. reflexivity. Qed.

(** C2 at its failing inputs.  With the schema of the docstring built on
    [DeclarativeBase]: [get_path] on the class Child finds the path to
    Grandparent, while on an instance of Child it raises, the instance
    having been looked up unresolved.  With the same schema built on
    [declarative_base()], the class Child itself is not looked up
    unchanged: it is replaced by its metaclass and rejected. *)
Theorem get_path_start_resolution :
  (let m := DeclarativeAttributeIntercept in
   dunder_class (OInst (Family.kid1 m)) = OClass (Family.Child m) /\
   get_path WalkSearch.shortest_path (init (Family.base m) false)
            (OClass (Family.Child m)) (OClass (Family.Grandparent m)) false =
   Ok (Some ["parent"; "grandparent"]) /\
   get_path WalkSearch.shortest_path (init (Family.base m) false)
            (OInst (Family.kid1 m)) (OClass (Family.Grandparent m)) false =
   Raise (NodeNotInGraph (OInst (Family.kid1 m)))) /\
  (let m := DeclarativeMeta in
   has_node (build_graph (Family.base m)) (OClass (Family.Child m)) = true /\
   get_path WalkSearch.shortest_path (init (Family.base m) false)
            (OClass (Family.Child m)) (OClass (Family.Grandparent m)) false =
   Raise (NodeNotInGraph (OMeta DeclarativeMeta))).
Proof. cbv zeta. repeat split; vm_compute; reflexivity. Qed.

(** C4 at its failing input.  In the graph of the docstring's schema,
    built on [declarative_base()], Child and Grandparent are nodes and
    Child, Parent, Grandparent is a walk, and Child and Parent are joined
    by the one relationship "parent"; [get_path] from the class Child
    raises the "not in the graph" error for both ends, with either flag
    and any search. *)
Theorem get_path_connected_legacy :
  let m := DeclarativeMeta in
  let g := build_graph (Family.base m) in
  has_node g (OClass (Family.Child m)) = true /\
  has_node g (OClass (Family.Grandparent m)) = true /\
  walk g (Family.Child m) (Family.Grandparent m)
       [Family.Child m; Family.Parent m; Family.Grandparent m] /\
  get_edge_data g (Family.Child m) (Family.Parent m) =
  Some (MkEdge "parent" false) /\
  forall sp raise_err,
    get_path sp (init (Family.base m) false) (OClass (Family.Child m))
             (OClass (Family.Grandparent m)) raise_err =
    Raise (NodeNotInGraph (OMeta DeclarativeMeta)) /\
    get_path sp (init (Family.base m) false) (OClass (Family.Child m))
             (OClass (Family.Parent m)) raise_err =
    Raise (NodeNotInGraph (OMeta DeclarativeMeta)).
Proof.
  cbv zeta. repeat split; try (vm_compute; reflexivity).
  apply walk_step with (Family.Parent DeclarativeMeta);
    [vm_compute; tauto |].
  apply walk_step with (Family.Grandparent DeclarativeMeta);
    [vm_compute; tauto | constructor].
Qed.

(** C5 at its failing input.  Child, made with [declarative_base()], is a
    node of the graph, and [get_path] from Child to Child raises the "not
    in the graph" error instead of returning the empty path. *)
Theorem get_path_same_node_legacy :
  let m := DeclarativeMeta in
  has_node (build_graph (Family.base m)) (OClass (Family.Child m)) = true /\
  forall sp raise_err,
    get_path sp (init (Family.base m) false) (OClass (Family.Child m))
             (OClass (Family.Child m)) raise_err =
    Raise (NodeNotInGraph (OMeta DeclarativeMeta)).
Proof. cbv zeta. split; [vm_compute; reflexivity | reflexivity]. Qed.

(** C6 at its failing input.  In a registry built on
    [declarative_base()] where nothing leads out of Child, Child and
    Grandparent are nodes with no walk from the first to the second, and
    [get_path] from Child to Grandparent raises the "not in the graph"
    error with the flag false (not the absent value) and with the flag
    true (not the no-path error). *)
Theorem get_path_unconnected_legacy :
  let m := DeclarativeMeta in
  let g := build_graph (Family.base_without_parent_link m) in
  has_node g (OClass (Family.Child m)) = true /\
  has_node g (OClass (Family.Grandparent m)) = true /\
  (forall q, ~ walk g (Family.Child m) (Family.Grandparent m) q) /\
  forall sp raise_err,
    get_path sp (init (Family.base_without_parent_link m) false)
             (OClass (Family.Child m)) (OClass (Family.Grandparent m))
             raise_err =
    Raise (NodeNotInGraph (OMeta DeclarativeMeta)).
Proof.
  cbv zeta. repeat split; try (vm_compute; reflexivity).
  intros q Hw. inversion Hw as [| s v t p Hin Hw']; subst.
  vm_compute in Hin. intuition discriminate.
Qed.

(** C1 at its failing input.  The loop of graph.py:116-117 on the
    working set of one grandparent, whose "parent" is the collection of
    mum and dad: after the to-many step the working set is the
    one-element list holding that collection, not the two parents; the
    step after it reads "child" off the collection and raises.  The whole
    of [traverse] on that instance does not reach the loop: [get_path]
    rejects the instance. *)
Theorem traverse_keeps_collections :
  let m := DeclarativeAttributeIntercept in
  traverse_loop (Family.getattr m) [OInst (Family.grandpa m)] ["parent"] =
  Ok [OColl [Family.mum m; Family.dad m]] /\
  traverse_loop (Family.getattr m) [OInst (Family.grandpa m)]
                ["parent"; "child"] = Raise AttributeError /\
  forall sp support raise_err,
    traverse sp (Family.getattr m) (init (Family.base m) support)
             (OInst (Family.grandpa m)) (OClass (Family.Child m)) raise_err =
    Raise (NodeNotInGraph (OInst (Family.grandpa m))).
Proof. cbv zeta. repeat split; vm_compute; reflexivity. Qed.


(** * Further properties of the module *)

(** ** What [__init__] builds *)

Lemma nodes_add_node g n c :
  In c (nodes (add_node g n)) <-> c = n \/ In c (nodes g).
Proof.
  unfold add_node, mem_class.
  destruct (in_dec class_eq_dec n (nodes g)) as [Hin | Hnot]; simpl.
  - split; [auto | intros [-> | H]; assumption].
  - rewrite in_app_iff. simpl. intuition.
Qed.

Lemma nodup_add_node g n : NoDup (nodes g) -> NoDup (nodes (add_node g n)).
Proof.
  intros Hnd. unfold add_node, mem_class.
  destruct (in_dec class_eq_dec n (nodes g)) as [Hin | Hnot]; simpl.
  - assumption.
  - apply NoDup_app; [assumption | constructor; [simpl; tauto | constructor] |].
    intros a Ha [<- | []]. contradiction.
Qed.

Lemma nodes_add_edge g u v d c :
  In c (nodes (add_edge g u v d)) <-> c = u \/ c = v \/ In c (nodes g).
Proof.
  unfold add_edge. simpl. rewrite !nodes_add_node. tauto.
Qed.

Lemma nodup_add_edge g u v d :
  NoDup (nodes g) -> NoDup (nodes (add_edge g u v d)).
Proof. intros H. unfold add_edge. simpl. now apply nodup_add_node, nodup_add_node. Qed.

Lemma nodes_add_relationships src rs : forall g c,
    In c (nodes (fold_left (add_relationship src) rs g)) <->
    In c (nodes g) \/
    (rs <> [] /\ c = src) \/ exists r, In r rs /\ c = entity_class r.
Proof.
  induction rs as [| r rs IH]; intros g c; simpl.
  - split; [auto | intros [H | [[H _] | [r [[] _]]]]; [assumption | congruence]].
  - rewrite IH. unfold add_relationship. rewrite nodes_add_edge. split.
    + intros [[-> | [-> | H]] | [[Hne ->] | (r' & Hr & ->)]].
      * right. left. split; [discriminate | reflexivity].
      * right. right. exists r. auto.
      * now left.
      * right. left. split; [discriminate | reflexivity].
      * right. right. exists r'. auto.
    + intros [H | [[_ ->] | (r' & [<- | Hr] & ->)]].
      * left. auto.
      * left. auto.
      * left. auto.
      * right. right. exists r'. auto.
Qed.

Lemma nodup_add_relationships src rs : forall g,
    NoDup (nodes g) -> NoDup (nodes (fold_left (add_relationship src) rs g)).
Proof.
  induction rs as [| r rs IH]; intros g Hnd; simpl; [assumption |].
  apply IH. unfold add_relationship. now apply nodup_add_edge.
Qed.

Lemma nodes_add_mapper g m c :
  In c (nodes (add_mapper g m)) <->
  In c (nodes g) \/ c = mapped_class m \/
  exists r, In r (relationships m) /\ c = entity_class r.
Proof.
  unfold add_mapper. rewrite nodes_add_relationships, nodes_add_node. tauto.
Qed.

Lemma nodes_fold_mappers base : forall g c,
    In c (nodes (fold_left add_mapper base g)) <->
    In c (nodes g) \/
    exists m, In m base /\
              (c = mapped_class m \/
               exists r, In r (relationships m) /\ c = entity_class r).
Proof.
  induction base as [| m base IH]; intros g c; simpl.
  - split; [auto | intros [H | (m & [] & _)]; assumption].
  - rewrite IH, nodes_add_mapper. split.
    + intros [[H | H] | (m' & Hm & H)].
      * now left.
      * right. exists m. auto.
      * right. exists m'. auto.
    + intros [H | (m' & [<- | Hm] & H)].
      * left. now left.
      * left. now right.
      * right. exists m'. auto.
Qed.

Lemma nodup_fold_mappers base : forall g,
    NoDup (nodes g) -> NoDup (nodes (fold_left add_mapper base g)).
Proof.
  induction base as [| m base IH]; intros g Hnd; simpl; [assumption |].
  apply IH. unfold add_mapper.
  now apply nodup_add_relationships, nodup_add_node.
Qed.

Lemma build_nodes_nodup base : NoDup (nodes (build_graph base)).
Proof. apply nodup_fold_mappers. constructor. Qed.

Lemma build_nodes_iff base c :
  In c (nodes (build_graph base)) <->
  exists m, In m base /\
            (c = mapped_class m \/
             exists r, In r (relationships m) /\ c = entity_class r).
Proof. unfold build_graph. rewrite nodes_fold_mappers. simpl. tauto. Qed.

(** X1.  The nodes of the built graph are the mapped classes of the
    registry together with the targets of their relationships, and no
    others, each once. *)
Theorem build_nodes (base : registry) (c : class_) :
  NoDup (nodes (build_graph base)) /\
  (In c (nodes (build_graph base)) <->
   exists m, In m base /\
             (c = mapped_class m \/
              exists r, In r (relationships m) /\ c = entity_class r)).
Proof. split; [apply build_nodes_nodup | apply build_nodes_iff]. Qed.

Lemma keys_put_all l : forall es k,
    In k (map fst (put_all es l)) <-> In k (map fst es) \/ In k (map fst l).
Proof.
  unfold put_all. induction l as [| [k0 d0] l IH]; intros es k; simpl.
  - tauto.
  - rewrite IH, keys_put. simpl. intuition.
Qed.

Lemma in_declared base s t d :
  In ((s, t), d) (declared base) <->
  exists m r, In m base /\ In r (relationships m) /\
              mapped_class m = s /\ entity_class r = t /\
              d = MkEdge (key r) (rel_plurality r).
Proof.
  unfold declared. rewrite in_flat_map. split.
  - intros (m & Hm & Hin). apply in_map_iff in Hin.
    destruct Hin as (r & Heq & Hr). unfold declared_edge in Heq.
    inversion Heq; subst. exists m, r. auto.
  - intros (m & r & Hm & Hr & <- & <- & ->).
    exists m. split; [assumption |]. apply in_map_iff. exists r. auto.
Qed.

Lemma build_arc_declared base s t :
  In (s, t) (arcs (build_graph base)) <->
  exists m r, In m base /\ In r (relationships m) /\
              mapped_class m = s /\ entity_class r = t.
Proof.
  unfold arcs. rewrite build_edges, keys_put_all. simpl. split.
  - intros [[] | Hin]. apply in_map_iff in Hin.
    destruct Hin as ([k d] & Hk & Hin). simpl in Hk. subst k.
    apply in_declared in Hin.
    destruct Hin as (m & r & Hm & Hr & Hs & Ht & _). exists m, r. auto.
  - intros (m & r & Hm & Hr & Hs & Ht). right. apply in_map_iff.
    exists ((s, t), MkEdge (key r) (rel_plurality r)). split; [reflexivity |].
    apply in_declared. exists m, r. auto.
Qed.

Lemma build_arcs_closed base : arcs_closed (build_graph base).
Proof.
  intros s t Hin. apply build_arc_declared in Hin.
  destruct Hin as (m & r & Hm & Hr & <- & <-).
  split.
  - apply build_nodes_iff. exists m. auto.
  - apply build_nodes_iff. exists m.
    split; [assumption | right; exists r; auto].
Qed.

(** X2.  The built graph has an edge from [s] to [t] exactly when some
    mapper of class [s] declares a relationship whose target is [t], and
    both ends of every edge of the built graph are nodes of it. *)
Theorem build_arcs (base : registry) (s t : class_) :
  (In (s, t) (arcs (build_graph base)) <->
   exists m r, In m base /\ In r (relationships m) /\
               mapped_class m = s /\ entity_class r = t) /\
  arcs_closed (build_graph base).
Proof. split; [apply build_arc_declared | apply build_arcs_closed]. Qed.

(** ** The plurality flag of an edge *)

Lemma string_length_app a b :
  String.length (a ++ b) = String.length a + String.length b.
Proof. induction a as [| c a IH]; simpl; [reflexivity | now rewrite IH]. Qed.

Lemma substring_all s : substring 0 (String.length s) s = s.
Proof. induction s as [| c s IH]; simpl; [reflexivity | now rewrite IH]. Qed.

Lemma substring_app_skip a b k m :
  substring (String.length a + k) m (a ++ b) = substring k m b.
Proof. induction a as [| c a IH]; simpl; [reflexivity | exact IH]. Qed.

Lemma substring_split s : forall k,
    k <= String.length s ->
    s = (substring 0 k s ++ substring k (String.length s - k) s)%string.
Proof.
  induction s as [| c s IH]; intros k Hk; simpl in *.
  - destruct k; reflexivity.
  - destruct k as [| k]; simpl.
    + now rewrite substring_all.
    + rewrite <- IH by lia. reflexivity.
Qed.

(** [endswith] is the suffix test. *)
Lemma endswith_iff s suffix :
  endswith s suffix = true <-> exists p, s = (p ++ suffix)%string.
Proof.
  unfold endswith. split.
  - destruct (Nat.leb_spec (String.length suffix) (String.length s))
      as [Hle | Hlt]; [| discriminate].
    intros Heq. apply String.eqb_eq in Heq.
    exists (substring 0 (String.length s - String.length suffix) s).
    assert (Hk : String.length s - String.length suffix <= String.length s)
      by lia.
    pose proof (@substring_split s _ Hk) as Hsplit.
    replace (String.length s - (String.length s - String.length suffix))
      with (String.length suffix) in Hsplit by lia.
    rewrite Heq in Hsplit. exact Hsplit.
  - intros [p ->]. rewrite string_length_app.
    destruct (Nat.leb_spec (String.length suffix)
                           (String.length p + String.length suffix))
      as [Hle | Hlt]; [| lia].
    replace (String.length p + String.length suffix - String.length suffix)
      with (String.length p + 0) by lia.
    rewrite substring_app_skip, substring_all. apply String.eqb_refl.
Qed.

Lemma lower_app a b : lower (a ++ b) = (lower a ++ lower b)%string.
Proof. induction a as [| c a IH]; simpl; [reflexivity | now rewrite IH]. Qed.

Lemma lower_length s : String.length (lower s) = String.length s.
Proof. induction s as [| c s IH]; simpl; [reflexivity | now rewrite IH]. Qed.

Lemma lower_app_inv a : forall s b,
    lower s = (a ++ b)%string ->
    exists p q, s = (p ++ q)%string /\ lower p = a /\ lower q = b.
Proof.
  induction a as [| c a IH]; intros s b Heq; simpl in Heq.
  - exists EmptyString, s. auto.
  - destruct s as [| c0 s]; simpl in Heq; [discriminate |].
    inversion Heq as [[Hc Hs]]. destruct (IH s b Hs) as (p & q & -> & Hp & Hq).
    exists (String c0 p), q. simpl. rewrite Hp. auto.
Qed.

(** X3.  An edge is flagged plural exactly when the text of the
    relationship's direction ends, letter case aside, in "many".  So a
    direction whose text ends in "MANYTOONE" is not plural although it
    holds the word, and one whose text ends in "TOMANY" is. *)
Theorem rel_plurality_suffix (k : string) (c : class_) (text p : string) :
  (rel_plurality (MkRel k c text) = true <->
   exists a b, text = (a ++ b)%string /\ lower b = "many") /\
  rel_plurality (MkRel k c (p ++ "MANYTOONE")) = false /\
  rel_plurality (MkRel k c (p ++ "TOMANY")) = true.
Proof.
  unfold rel_plurality. simpl direction_text. split; [| split].
  - rewrite endswith_iff. split.
    + intros [a Ha]. apply lower_app_inv in Ha.
      destruct Ha as (a' & b & -> & _ & Hb). eauto.
    + intros (a & b & -> & Hb). exists (lower a). now rewrite lower_app, Hb.
  - rewrite lower_app. unfold endswith.
    rewrite string_length_app. simpl String.length.
    destruct (Nat.leb_spec 4 (String.length (lower p) + 9)) as [_ | H]; [| lia].
    replace (String.length (lower p) + 9 - 4)
      with (String.length (lower p) + 5) by lia.
    rewrite substring_app_skip. reflexivity.
  - apply endswith_iff. exists (lower (p ++ "TO")).
    rewrite <- lower_app with (b := "MANY").
    f_equal. clear. induction p as [| c0 p IH]; simpl; [reflexivity | now rewrite IH].
Qed.

(** ** Which calls of [get_path] succeed, and how the others fail *)

Lemma resolve_start_class_inv start s :
  resolve_start start = OClass s ->
  start = OClass s /\ isinstance_meta start DeclarativeMeta = false.
Proof.
  destruct start as [c | m | i | items | c k | name |]; try discriminate.
  rewrite resolve_start_class. simpl.
  destruct (metaclass_sub (class_meta c) DeclarativeMeta) eqn:Hm;
    [discriminate |].
  intros [= <-]. auto.
Qed.

Lemma resolve_start_other_class s :
  isinstance_meta (OClass s) DeclarativeMeta = false ->
  resolve_start (OClass s) = OClass s.
Proof. intros H. rewrite resolve_start_class. simpl in H. now rewrite H. Qed.

Lemma resolve_start_base_class s :
  class_meta s = DeclarativeAttributeIntercept ->
  resolve_start (OClass s) = OClass s.
Proof. intros H. rewrite resolve_start_class. now rewrite H. Qed.

(** A returned value, read backwards through the guards of
    graph.py:78-98. *)
Lemma get_path_ok_inv sp self start end_ r res :
  get_path sp self start end_ r = Ok res ->
  exists g s t,
    relationship_graph self = Some g /\
    node_of g (resolve_start start) = Some s /\
    node_of g end_ = Some t /\
    ((sp g s t = None /\ r = false /\ res = None) \/
     exists p l, sp g s t = Some p /\ path_attributes g p = Ok l /\
                 res = Some l).
Proof.
  unfold get_path.
  destruct (relationship_graph self) as [g |]; [| discriminate].
  destruct (node_of g (resolve_start start)) as [s |] eqn:Hs; [| discriminate].
  destruct (node_of g end_) as [t |] eqn:Ht; [| discriminate].
  intros H. exists g, s, t.
  split; [reflexivity | split; [assumption | split; [assumption |]]].
  destruct (sp g s t) as [p |] eqn:Hsp.
  - right. destruct (path_attributes g p) as [l | e] eqn:Hp; simpl in H;
      [| discriminate].
    inversion H; subst. exists p, l. auto.
  - left. destruct r; [discriminate |]. inversion H; subst. auto.
Qed.

(** X4.  [get_path] returns (a path or the absent value) only for a
    start that is itself a class, a node of the graph, and no instance of
    [DeclarativeMeta] (its type neither is that metaclass nor derives
    from it), and an end that is a class and a node.  So an instance of a
    mapped class is never accepted as start, nor is a class made by
    [declarative_base()]; a class whose type is
    [DeclarativeAttributeIntercept] or the builtin [type] is. *)
Theorem get_path_accepted_start
        (sp : DiGraph -> class_ -> class_ -> option (list class_))
        (self : RelationshipGraph) (start end_ : pyobj) (raise_err : bool)
        (res : option (list string)) :
  get_path sp self start end_ raise_err = Ok res ->
  exists g s t,
    relationship_graph self = Some g /\
    start = OClass s /\ isinstance_meta start DeclarativeMeta = false /\
    In s (nodes g) /\ end_ = OClass t /\ In t (nodes g).
Proof.
  intros H. apply get_path_ok_inv in H.
  destruct H as (g & s & t & Hg & Hs & Ht & _).
  apply node_of_some in Hs. apply node_of_some in Ht.
  destruct Hs as [Hs Hins]. destruct Ht as [Ht Hint].
  apply resolve_start_class_inv in Hs. destruct Hs as [Hs Hm].
  exists g, s, t. repeat split; assumption.
Qed.

Lemma get_path_accepted_start_witness :
  (let m := BuiltinType in
   exists g s t,
     relationship_graph (init (Family.base m) false) = Some g /\
     OClass (Family.Child m) = OClass s /\
     isinstance_meta (OClass (Family.Child m)) DeclarativeMeta = false /\
     In s (nodes g) /\ OClass (Family.Grandparent m) = OClass t /\
     In t (nodes g)) /\
  (let m := DeclarativeAttributeIntercept in
   exists g s t,
     relationship_graph (init (Family.base m) false) = Some g /\
     OClass (Family.Child m) = OClass s /\
     isinstance_meta (OClass (Family.Child m)) DeclarativeMeta = false /\
     In s (nodes g) /\ OClass (Family.Grandparent m) = OClass t /\
     In t (nodes g)).
Proof.
  cbv zeta. split.
  - apply (@get_path_accepted_start WalkSearch.shortest_path
             (init (Family.base BuiltinType) false)
             (OClass (Family.Child BuiltinType))
             (OClass (Family.Grandparent BuiltinType))
             false (Some ["parent"; "grandparent"])).
    vm_compute. reflexivity.
  - apply (@get_path_accepted_start WalkSearch.shortest_path
             (init (Family.base DeclarativeAttributeIntercept) false)
             (OClass (Family.Child DeclarativeAttributeIntercept))
             (OClass (Family.Grandparent DeclarativeAttributeIntercept))
             false (Some ["parent"; "grandparent"])).
    vm_compute. reflexivity.
Defined.

Lemma get_path_raise_inv sp self start end_ r e :
  shortest_path_contract sp ->
  get_path sp self start end_ r = Raise e ->
  (relationship_graph self = None /\ e = GraphNotBuilt) \/
  (exists g, relationship_graph self = Some g /\
             ((has_node g (resolve_start start) = false /\
               e = NodeNotInGraph (resolve_start start)) \/
              (has_node g (resolve_start start) = true /\
               has_node g end_ = false /\ e = NodeNotInGraph end_) \/
              (has_node g (resolve_start start) = true /\
               has_node g end_ = true /\ r = true /\ e = NetworkXNoPath))).
Proof.
  intros Hsp. unfold get_path, has_node.
  destruct (relationship_graph self) as [g |]; [| intros [= <-]; now left].
  intros H. right. exists g. split; [reflexivity |].
  destruct (node_of g (resolve_start start)) as [s |] eqn:Hs;
    [| inversion H; now left].
  destruct (node_of g end_) as [t |] eqn:Ht;
    [| inversion H; right; left; auto].
  right. right.
  apply node_of_some in Hs. apply node_of_some in Ht.
  destruct Hs as [_ Hins]. destruct Ht as [_ Hint].
  destruct (sp g s t) as [p |] eqn:Hp.
  - pose proof (@sp_walk sp Hsp g s t p Hins Hint Hp) as Hw.
    destruct (walk_attributes Hw) as (l & Hl & _). rewrite Hl in H.
    discriminate.
  - destruct r; [inversion H; auto | discriminate].
Qed.

(** X5.  With a search that keeps the library's contract, [get_path]
    raises nothing but: the "not built" error when the graph attribute is
    [None]; the "not in the graph" error, on the resolved start when that
    is no node, else on the end when that is no node; and the no-path
    error, only with the flag true and both being nodes.  Reading the
    edge attributes of the path found never fails. *)
Theorem get_path_errors
        (sp : DiGraph -> class_ -> class_ -> option (list class_))
        (self : RelationshipGraph) (start end_ : pyobj) (raise_err : bool)
        (e : exn) :
  shortest_path_contract sp ->
  get_path sp self start end_ raise_err = Raise e ->
  (relationship_graph self = None /\ e = GraphNotBuilt) \/
  (exists g, relationship_graph self = Some g /\
             ((has_node g (resolve_start start) = false /\
               e = NodeNotInGraph (resolve_start start)) \/
              (has_node g (resolve_start start) = true /\
               has_node g end_ = false /\ e = NodeNotInGraph end_) \/
              (has_node g (resolve_start start) = true /\
               has_node g end_ = true /\ raise_err = true /\
               e = NetworkXNoPath))).
Proof. apply get_path_raise_inv. Qed.

Lemma get_path_errors_witness :
  let m := DeclarativeAttributeIntercept in
  let self := init (Family.base_without_parent_link m) true in
  let start := OClass (Family.Child m) in
  let end_ := OClass (Family.Grandparent m) in
  (relationship_graph self = None /\ NetworkXNoPath = GraphNotBuilt) \/
  (exists g, relationship_graph self = Some g /\
             ((has_node g (resolve_start start) = false /\
               NetworkXNoPath = NodeNotInGraph (resolve_start start)) \/
              (has_node g (resolve_start start) = true /\
               has_node g end_ = false /\
               NetworkXNoPath = NodeNotInGraph end_) \/
              (has_node g (resolve_start start) = true /\
               has_node g end_ = true /\ true = true /\
               NetworkXNoPath = NetworkXNoPath))).
Proof.
  cbv zeta.
  apply (@get_path_errors WalkSearch.shortest_path
           (init (Family.base_without_parent_link
                    DeclarativeAttributeIntercept) true)
           (OClass (Family.Child DeclarativeAttributeIntercept))
           (OClass (Family.Grandparent DeclarativeAttributeIntercept))
           true NetworkXNoPath).
  - exact WalkSearchFacts.shortest_path_meets_contract.
  - vm_compute. reflexivity.
Defined.

(** ** Paths and the relationships of the registry *)

Lemma chain_walk base s t l :
  relationship_chain base s t l ->
  exists q, walk (build_graph base) s t q /\ List.length q = S (List.length l).
Proof.
  induction 1 as [s | m r t l Hm Hr Hc IH].
  - exists [s]. split; [constructor | reflexivity].
  - destruct IH as (q & Hw & Hlen).
    exists (mapped_class m :: q). split; [| simpl; lia].
    apply walk_step with (entity_class r); [| assumption].
    apply build_arc_declared. exists m, r. auto.
Qed.

Lemma edge_present_declared base s v a :
  edge_present (build_graph base) s v a ->
  exists m r, In m base /\ In r (relationships m) /\
              mapped_class m = s /\ entity_class r = v /\ key r = a.
Proof.
  intros (d & Hin & Ha).
  apply in_lookup in Hin; [| exact (build_nodup base)].
  rewrite build_edges, lookup_put_all in Hin.
  destruct (lookup_edge (rev (declared base)) (s, v)) as [d' |] eqn:Hl;
    [| discriminate].
  inversion Hin; subst d'. apply lookup_in in Hl. apply in_rev in Hl.
  apply in_declared in Hl.
  destruct Hl as (m & r & Hm & Hr & Hs & Hv & ->).
  exists m, r. auto.
Qed.

Lemma labelled_walk_chain base s t l :
  labelled_walk (build_graph base) s t l -> relationship_chain base s t l.
Proof.
  induction 1 as [s | s v t a l He Hl IH].
  - constructor.
  - apply edge_present_declared in He.
    destruct He as (m & r & Hm & Hr & <- & <- & <-).
    now apply chain_step.
Qed.

Lemma walk_incl_nodes g s t q :
  arcs_closed g -> In s (nodes g) -> walk g s t q -> incl q (nodes g).
Proof.
  intros Hc Hs Hw. induction Hw as [s | s v t q Hin Hw IH].
  - intros x [<- | []]. assumption.
  - intros x [<- | Hx]; [assumption |].
    apply IH; [| assumption]. now apply (Hc s v).
Qed.

(** What a returned path is, for a search that keeps the contract. *)
Lemma get_path_some_inv sp self start end_ r l :
  shortest_path_contract sp ->
  get_path sp self start end_ r = Ok (Some l) ->
  exists g s t p,
    relationship_graph self = Some g /\
    start = OClass s /\ isinstance_meta start DeclarativeMeta = false /\
    In s (nodes g) /\ end_ = OClass t /\ In t (nodes g) /\
    walk g s t p /\ S (List.length l) = List.length p /\
    labelled_walk g s t l /\
    forall q, walk g s t q -> List.length p <= List.length q.
Proof.
  intros Hsp H. apply get_path_ok_inv in H.
  destruct H as (g & s & t & Hg & Hs & Ht & [[_ [_ Hn]] | (p & l' & Hp & Hl & Hr)]);
    [discriminate |].
  inversion Hr; subst l'.
  apply node_of_some in Hs. apply node_of_some in Ht.
  destruct Hs as [Hs Hins]. destruct Ht as [Ht Hint].
  apply resolve_start_class_inv in Hs. destruct Hs as [Hs Hm].
  pose proof (@sp_walk sp Hsp g s t p Hins Hint Hp) as Hw.
  destruct (walk_attributes Hw) as (l2 & Hl2 & Hlab & Hlen).
  rewrite Hl in Hl2. inversion Hl2; subst l2.
  exists g, s, t, p. repeat split; try assumption.
  intros q Hq. exact (@sp_minimal sp Hsp g s t p q Hins Hint Hp Hq).
Qed.

Lemma init_graph base support g :
  relationship_graph (init base support) = Some g -> g = build_graph base.
Proof. intros [= <-]. reflexivity. Qed.

(** X6.  A path returned by [get_path] on a built graph names a chain of
    relationships declared in the registry that leads from the start
    class to the end class, and no such chain is shorter. *)
Theorem get_path_returns_shortest_chain
        (sp : DiGraph -> class_ -> class_ -> option (list class_))
        (base : registry) (support : bool) (start end_ : pyobj)
        (raise_err : bool) (l : list string) :
  shortest_path_contract sp ->
  get_path sp (init base support) start end_ raise_err = Ok (Some l) ->
  exists s t,
    start = OClass s /\ end_ = OClass t /\
    relationship_chain base s t l /\
    forall l', relationship_chain base s t l' ->
               List.length l <= List.length l'.
Proof.
  intros Hsp H. apply (@get_path_some_inv sp _ _ _ _ _ Hsp) in H.
  destruct H as (g & s & t & p & Hg & Hs & _ & _ & Ht & _ & _ & Hlen & Hlab & Hmin).
  apply init_graph in Hg. subst g.
  exists s, t. repeat split; try assumption.
  - now apply labelled_walk_chain.
  - intros l' Hc. destruct (chain_walk Hc) as (q & Hq & Hql).
    specialize (Hmin q Hq). lia.
Qed.

Lemma get_path_returns_shortest_chain_witness :
  let m := DeclarativeAttributeIntercept in
  exists s t,
    OClass (Family.Child m) = OClass s /\
    OClass (Family.Grandparent m) = OClass t /\
    relationship_chain (Family.base m) s t ["parent"; "grandparent"] /\
    forall l', relationship_chain (Family.base m) s t l' ->
               List.length ["parent"; "grandparent"] <= List.length l'.
Proof.
  cbv zeta.
  apply (@get_path_returns_shortest_chain WalkSearch.shortest_path
           (Family.base DeclarativeAttributeIntercept) false
           (OClass (Family.Child DeclarativeAttributeIntercept))
           (OClass (Family.Grandparent DeclarativeAttributeIntercept))
           false ["parent"; "grandparent"]).
  - exact WalkSearchFacts.shortest_path_meets_contract.
  - vm_compute. reflexivity.
Defined.

(** X7.  A path returned by [get_path] on a built graph has fewer names
    than the graph has nodes. *)
Theorem get_path_length_bound
        (sp : DiGraph -> class_ -> class_ -> option (list class_))
        (base : registry) (support : bool) (start end_ : pyobj)
        (raise_err : bool) (l : list string) :
  shortest_path_contract sp ->
  get_path sp (init base support) start end_ raise_err = Ok (Some l) ->
  List.length l < List.length (nodes (build_graph base)).
Proof.
  intros Hsp H. apply (@get_path_some_inv sp _ _ _ _ _ Hsp) in H.
  destruct H as (g & s & t & p & Hg & _ & _ & Hins & _ & _ & Hw & Hlen & _ & Hmin).
  apply init_graph in Hg. subst g.
  destruct (WalkSearchFacts.walk_simple Hw) as (q & Hq & Hnd & _).
  pose proof (walk_incl_nodes (build_arcs_closed base) Hins Hq) as Hincl.
  pose proof (NoDup_incl_length Hnd Hincl) as Hb.
  specialize (Hmin q Hq). lia.
Qed.

Lemma get_path_length_bound_witness :
  let m := DeclarativeAttributeIntercept in
  List.length ["parent"; "grandparent"] <
  List.length (nodes (build_graph (Family.base m))).
Proof.
  cbv zeta.
  apply (@get_path_length_bound WalkSearch.shortest_path
           (Family.base DeclarativeAttributeIntercept) false
           (OClass (Family.Child DeclarativeAttributeIntercept))
           (OClass (Family.Grandparent DeclarativeAttributeIntercept))
           false ["parent"; "grandparent"]).
  - exact WalkSearchFacts.shortest_path_meets_contract.
  - vm_compute. reflexivity.
Defined.

(** X8.  When some chain of declared relationships leads from a class
    [s], made with [DeclarativeAttributeIntercept], to a class [t], both
    nodes of the built graph, [get_path] from [s] to [t] returns one path
    whatever the flag, and that path is no longer than the chain. *)
Theorem get_path_connected
        (sp : DiGraph -> class_ -> class_ -> option (list class_))
        (base : registry) (support : bool) (s t : class_)
        (l0 : list string) :
  shortest_path_contract sp ->
  class_meta s = DeclarativeAttributeIntercept ->
  In s (nodes (build_graph base)) -> In t (nodes (build_graph base)) ->
  relationship_chain base s t l0 ->
  exists l,
    (forall raise_err,
        get_path sp (init base support) (OClass s) (OClass t) raise_err =
        Ok (Some l)) /\
    relationship_chain base s t l /\ List.length l <= List.length l0.
Proof.
  intros Hsp Hm Hins Hint Hc.
  destruct (chain_walk Hc) as (q & Hq & Hql).
  destruct (sp (build_graph base) s t) as [p |] eqn:Hp.
  - pose proof (@sp_walk sp Hsp _ s t p Hins Hint Hp) as Hw.
    destruct (walk_attributes Hw) as (l & Hl & Hlab & Hlen).
    exists l. split; [| split].
    + intros r.
      rewrite (@get_path_resolved sp (init base support) (build_graph base)
                 (OClass s) s t r eq_refl (resolve_start_base_class s Hm)
                 Hins Hint).
      rewrite Hp, Hl. reflexivity.
    + now apply labelled_walk_chain.
    + pose proof (@sp_minimal sp Hsp _ s t p q Hins Hint Hp Hq). lia.
  - exfalso. exact (@sp_no_path sp Hsp _ s t q Hins Hint Hp Hq).
Qed.

Lemma get_path_connected_witness :
  let m := DeclarativeAttributeIntercept in
  exists l,
    (forall raise_err,
        get_path WalkSearch.shortest_path (init (Family.base m) true)
                 (OClass (Family.Grandparent m)) (OClass (Family.Child m))
                 raise_err = Ok (Some l)) /\
    relationship_chain (Family.base m) (Family.Grandparent m)
                       (Family.Child m) l /\
    List.length l <= List.length ["parent"; "child"].
Proof.
  cbv zeta.
  apply (@get_path_connected WalkSearch.shortest_path
           (Family.base DeclarativeAttributeIntercept) true
           (Family.Grandparent DeclarativeAttributeIntercept)
           (Family.Child DeclarativeAttributeIntercept)
           ["parent"; "child"]).
  - exact WalkSearchFacts.shortest_path_meets_contract.
  - reflexivity.
  - vm_compute. tauto.
  - vm_compute. tauto.
  - apply (@chain_step (Family.base DeclarativeAttributeIntercept)
             (MkMapper (Family.Grandparent DeclarativeAttributeIntercept)
                       [MkRel "parent"
                              (Family.Parent DeclarativeAttributeIntercept)
                              Family.one_to_many])
             (MkRel "parent" (Family.Parent DeclarativeAttributeIntercept)
                    Family.one_to_many));
      [simpl; tauto | simpl; tauto |].
    apply (@chain_step (Family.base DeclarativeAttributeIntercept)
             (MkMapper (Family.Parent DeclarativeAttributeIntercept)
                       [MkRel "grandparent"
                              (Family.Grandparent DeclarativeAttributeIntercept)
                              Family.many_to_one;
                        MkRel "child"
                              (Family.Child DeclarativeAttributeIntercept)
                              Family.one_to_many])
             (MkRel "child" (Family.Child DeclarativeAttributeIntercept)
                    Family.one_to_many));
      [simpl; tauto | simpl; tauto |].
    apply chain_stop.
Defined.

(** X9.  From a class made with [DeclarativeAttributeIntercept] that is
    a node, to itself, [get_path] returns the empty path, whatever the
    flag, even when the class has a relationship to itself. *)
Theorem get_path_same_class
        (sp : DiGraph -> class_ -> class_ -> option (list class_))
        (self : RelationshipGraph) (g : DiGraph) (s : class_)
        (raise_err : bool) :
  shortest_path_contract sp ->
  relationship_graph self = Some g ->
  class_meta s = DeclarativeAttributeIntercept ->
  In s (nodes g) ->
  get_path sp self (OClass s) (OClass s) raise_err = Ok (Some []).
Proof.
  intros Hsp Hg Hm Hins.
  exact (@get_path_same_node sp Hsp self g (OClass s) s raise_err Hg
           (resolve_start_base_class s Hm) Hins).
Qed.

Lemma get_path_same_class_witness :
  let m := DeclarativeAttributeIntercept in
  get_path WalkSearch.shortest_path (init (Family.base m) false)
           (OClass (Family.Parent m)) (OClass (Family.Parent m)) true =
  Ok (Some []).
Proof.
  cbv zeta.
  apply (@get_path_same_class WalkSearch.shortest_path
           (init (Family.base DeclarativeAttributeIntercept) false)
           (build_graph (Family.base DeclarativeAttributeIntercept))).
  - exact WalkSearchFacts.shortest_path_meets_contract.
  - reflexivity.
  - reflexivity.
  - vm_compute. tauto.
Defined.

(** X10.  When a class [s], made with [DeclarativeAttributeIntercept],
    declares a relationship [r0] to a different class [t] and every
    relationship declared from [s] to [t] has the key of [r0], [get_path]
    from [s] to [t] returns the one-name path of that key. *)
Theorem get_path_single_relationship
        (sp : DiGraph -> class_ -> class_ -> option (list class_))
        (base : registry) (support : bool) (m : mapper) (r0 : relationship)
        (raise_err : bool) :
  shortest_path_contract sp ->
  class_meta (mapped_class m) = DeclarativeAttributeIntercept ->
  In m base -> In r0 (relationships m) ->
  mapped_class m <> entity_class r0 ->
  (forall m' r', In m' base -> In r' (relationships m') ->
                 mapped_class m' = mapped_class m ->
                 entity_class r' = entity_class r0 -> key r' = key r0) ->
  get_path sp (init base support) (OClass (mapped_class m))
           (OClass (entity_class r0)) raise_err =
  Ok (Some [key r0]).
Proof.
  intros Hsp Hm Hin Hr Hne Hall.
  assert (Harc : In (mapped_class m, entity_class r0)
                    (arcs (build_graph base))).
  { apply build_arc_declared. exists m, r0. auto. }
  destruct (build_arcs_closed base _ _ Harc) as [Hins Hint].
  destruct (lookup_keys (edges (build_graph base)) _ Harc) as [d Hd].
  assert (Hkey : attribute d = key r0).
  { assert (He : edge_present (build_graph base) (mapped_class m)
                              (entity_class r0) (attribute d)).
    { exists d. split; [now apply lookup_in | reflexivity]. }
    apply edge_present_declared in He.
    destruct He as (m' & r' & Hm' & Hr' & Hs' & Ht' & <-).
    now apply Hall with m'. }
  rewrite <- Hkey.
  exact (@get_path_single_edge sp Hsp (init base support) (build_graph base)
           (OClass (mapped_class m)) (mapped_class m) (entity_class r0) d
           raise_err eq_refl (resolve_start_base_class _ Hm) Hins Hint Hne Hd).
Qed.

Lemma get_path_single_relationship_witness :
  let c := DeclarativeAttributeIntercept in
  let m := MkMapper (Family.Child c)
                    [MkRel "parent" (Family.Parent c) Family.many_to_one] in
  let r0 := MkRel "parent" (Family.Parent c) Family.many_to_one in
  get_path WalkSearch.shortest_path (init (Family.base c) false)
           (OClass (mapped_class m)) (OClass (entity_class r0)) false =
  Ok (Some [key r0]).
Proof.
  cbv zeta.
  apply (@get_path_single_relationship WalkSearch.shortest_path
           (Family.base DeclarativeAttributeIntercept) false).
  - exact WalkSearchFacts.shortest_path_meets_contract.
  - reflexivity.
  - simpl. tauto.
  - simpl. tauto.
  - discriminate.
  - intros m' r' Hm' Hr' Hs Ht. simpl in Hm'.
    destruct Hm' as [<- | [<- | [<- | []]]]; simpl in Hs; try discriminate.
    simpl in Hr'. destruct Hr' as [<- | []]. reflexivity.
Defined.

Lemma no_chain_no_walk base s t :
  (forall l, ~ relationship_chain base s t l) ->
  forall q, ~ walk (build_graph base) s t q.
Proof.
  intros Hno q Hw. destruct (walk_attributes Hw) as (l & _ & Hlab & _).
  apply (Hno l). now apply labelled_walk_chain.
Qed.

(** X11.  When no chain of declared relationships leads from a class
    [s], made with [DeclarativeAttributeIntercept], to a class [t], both
    nodes of the built graph, [get_path] from [s] to [t] returns the
    absent value with the flag false and raises the no-path error with
    the flag true. *)
Theorem get_path_unconnected_classes
        (sp : DiGraph -> class_ -> class_ -> option (list class_))
        (base : registry) (support : bool) (s t : class_)
        (raise_err : bool) :
  shortest_path_contract sp ->
  class_meta s = DeclarativeAttributeIntercept ->
  In s (nodes (build_graph base)) -> In t (nodes (build_graph base)) ->
  (forall l, ~ relationship_chain base s t l) ->
  get_path sp (init base support) (OClass s) (OClass t) raise_err =
  if raise_err then Raise NetworkXNoPath else Ok None.
Proof.
  intros Hsp Hm Hins Hint Hno.
  exact (@get_path_unconnected sp Hsp (init base support) (build_graph base)
           (OClass s) s t raise_err eq_refl (resolve_start_base_class s Hm)
           Hins Hint (no_chain_no_walk Hno)).
Qed.

Lemma no_chain_from_child l :
  ~ relationship_chain
      (Family.base_without_parent_link DeclarativeAttributeIntercept)
      (Family.Child DeclarativeAttributeIntercept)
      (Family.Grandparent DeclarativeAttributeIntercept) l.
Proof.
  intros H. inversion H as [s Hs | m r t l' Hm Hr Hc Hs]; subst.
  simpl in Hm. destruct Hm as [<- | [<- | [<- | []]]]; simpl in Hs;
    try discriminate.
  simpl in Hr. exact Hr.
Qed.

Lemma get_path_unconnected_classes_witness :
  let m := DeclarativeAttributeIntercept in
  get_path WalkSearch.shortest_path
           (init (Family.base_without_parent_link m) false)
           (OClass (Family.Child m)) (OClass (Family.Grandparent m)) true =
  Raise NetworkXNoPath.
Proof.
  cbv zeta.
  apply (@get_path_unconnected_classes WalkSearch.shortest_path
           (Family.base_without_parent_link DeclarativeAttributeIntercept)
           false (Family.Child DeclarativeAttributeIntercept)
           (Family.Grandparent DeclarativeAttributeIntercept) true).
  - exact WalkSearchFacts.shortest_path_meets_contract.
  - reflexivity.
  - vm_compute. tauto.
  - vm_compute. tauto.
  - exact no_chain_from_child.
Defined.

(** X12.  For a class [s] made with [DeclarativeAttributeIntercept] and
    a class [t], both nodes of the built graph, [has_path] returns true
    when some chain of declared relationships leads from [s] to [t], and
    false when none does; it does not raise. *)
Theorem has_path_iff_chain
        (sp : DiGraph -> class_ -> class_ -> option (list class_))
        (base : registry) (support : bool) (s t : class_) :
  shortest_path_contract sp ->
  class_meta s = DeclarativeAttributeIntercept ->
  In s (nodes (build_graph base)) -> In t (nodes (build_graph base)) ->
  (has_path sp (init base support) (OClass s) (OClass t) = Ok true <->
   exists l, relationship_chain base s t l) /\
  (has_path sp (init base support) (OClass s) (OClass t) = Ok false <->
   forall l, ~ relationship_chain base s t l).
Proof.
  intros Hsp Hm Hins Hint. unfold has_path.
  rewrite (@get_path_resolved sp (init base support) (build_graph base)
             (OClass s) s t false eq_refl (resolve_start_base_class s Hm)
             Hins Hint).
  destruct (sp (build_graph base) s t) as [p |] eqn:Hp.
  - pose proof (@sp_walk sp Hsp _ s t p Hins Hint Hp) as Hw.
    destruct (walk_attributes Hw) as (l & Hl & Hlab & _).
    rewrite Hl. simpl. apply labelled_walk_chain in Hlab. split; split.
    + intros _. eauto.
    + reflexivity.
    + discriminate.
    + intros Hno. exfalso. exact (Hno l Hlab).
  - simpl.
    assert (Hno : forall l, ~ relationship_chain base s t l).
    { intros l Hc. destruct (chain_walk Hc) as (q & Hq & _).
      exact (@sp_no_path sp Hsp _ s t q Hins Hint Hp Hq). }
    split; split.
    + discriminate.
    + intros [l Hc]. exfalso. exact (Hno l Hc).
    + intros _. exact Hno.
    + reflexivity.
Qed.

Lemma has_path_iff_chain_witness :
  let m := DeclarativeAttributeIntercept in
  (has_path WalkSearch.shortest_path
            (init (Family.base_without_parent_link m) false)
            (OClass (Family.Child m)) (OClass (Family.Grandparent m)) =
   Ok true <->
   exists l, relationship_chain (Family.base_without_parent_link m)
                                (Family.Child m) (Family.Grandparent m) l) /\
  (has_path WalkSearch.shortest_path
            (init (Family.base_without_parent_link m) false)
            (OClass (Family.Child m)) (OClass (Family.Grandparent m)) =
   Ok false <->
   forall l, ~ relationship_chain (Family.base_without_parent_link m)
                                  (Family.Child m) (Family.Grandparent m) l).
Proof.
  cbv zeta.
  apply (@has_path_iff_chain WalkSearch.shortest_path
           (Family.base_without_parent_link DeclarativeAttributeIntercept)
           false).
  - exact WalkSearchFacts.shortest_path_meets_contract.
  - reflexivity.
  - vm_compute. tauto.
  - vm_compute. tauto.
Defined.

Lemma walk_app g s t u p q :
  walk g s t p -> walk g t u q ->
  exists w, walk g s u w /\ S (List.length w) = List.length p + List.length q.
Proof.
  intros Hp Hq. induction Hp as [s | s v t p Hin Hw IH].
  - exists q. split; [assumption | reflexivity].
  - destruct (IH Hq) as (w & Hw' & Hlen).
    exists (s :: w). split; [now apply walk_step with v | simpl; lia].
Qed.

(** X13.  Paths compose: when [get_path] returns a path from a start to
    a class [t], and a path from the class [t] to an end, it returns a
    path from the start to the end, whatever the flag, with no more names
    than the two together. *)
Theorem get_path_triangle
        (sp : DiGraph -> class_ -> class_ -> option (list class_))
        (self : RelationshipGraph) (start end_ : pyobj) (t : class_)
        (r1 r2 : bool) (l1 l2 : list string) :
  shortest_path_contract sp ->
  get_path sp self start (OClass t) r1 = Ok (Some l1) ->
  get_path sp self (OClass t) end_ r2 = Ok (Some l2) ->
  exists l3,
    (forall r3, get_path sp self start end_ r3 = Ok (Some l3)) /\
    List.length l3 <= List.length l1 + List.length l2.
Proof.
  intros Hsp H1 H2.
  apply (@get_path_some_inv sp _ _ _ _ _ Hsp) in H1.
  apply (@get_path_some_inv sp _ _ _ _ _ Hsp) in H2.
  destruct H1 as (g & s & t1 & p1 & Hg & Hs & Hm & Hins & Ht1 & _ & Hw1 & Hlen1 & _).
  destruct H2 as (g' & t2 & u & p2 & Hg' & Ht2 & _ & _ & Hu & Hinu & Hw2 & Hlen2 & _).
  rewrite Hg in Hg'. inversion Hg'; subst g'.
  inversion Ht1; subst t1. inversion Ht2; subst t2. subst start end_.
  destruct (walk_app Hw1 Hw2) as (w & Hw & Hlen).
  destruct (sp g s u) as [p3 |] eqn:Hp3.
  - pose proof (@sp_walk sp Hsp g s u p3 Hins Hinu Hp3) as Hw3.
    destruct (walk_attributes Hw3) as (l3 & Hl3 & _ & Hlen3).
    exists l3. split.
    + intros r3.
      rewrite (@get_path_resolved sp self g (OClass s) s u r3 Hg
                 (resolve_start_other_class s Hm) Hins Hinu).
      rewrite Hp3, Hl3. reflexivity.
    + pose proof (@sp_minimal sp Hsp g s u p3 w Hins Hinu Hp3 Hw). lia.
  - exfalso. exact (@sp_no_path sp Hsp g s u w Hins Hinu Hp3 Hw).
Qed.

Lemma get_path_triangle_witness :
  let m := DeclarativeAttributeIntercept in
  exists l3,
    (forall r3,
        get_path WalkSearch.shortest_path (init (Family.base m) false)
                 (OClass (Family.Child m)) (OClass (Family.Grandparent m)) r3 =
        Ok (Some l3)) /\
    List.length l3 <= List.length ["parent"] + List.length ["grandparent"].
Proof.
  cbv zeta.
  apply (@get_path_triangle WalkSearch.shortest_path
           (init (Family.base DeclarativeAttributeIntercept) false)
           (OClass (Family.Child DeclarativeAttributeIntercept))
           (OClass (Family.Grandparent DeclarativeAttributeIntercept))
           (Family.Parent DeclarativeAttributeIntercept) false false).
  - exact WalkSearchFacts.shortest_path_meets_contract.
  - vm_compute. reflexivity.
  - vm_compute. reflexivity.
Defined.

(** ** What [traverse] reads and returns *)

Lemma traverse_loop_single getattr path : forall x,
    traverse_loop getattr [x] path =
    (y <- read_chain getattr x path ;; Ok [y]).
Proof.
  induction path as [| attr path IH]; intros x; simpl.
  - reflexivity.
  - destruct (getattr x attr) as [y | e]; simpl; [apply IH | reflexivity].
Qed.

(** X14.  When [get_path] finds a path, [traverse] reads its names one
    after the other off the start object, each off the value of the read
    before, collections included, as [start.a1.a2...an] would; it returns
    the last value read when [support_plurality] is false and the
    one-element list of it when true, and raises what the first failing
    read raises. *)
Theorem traverse_reads_chain
        (sp : DiGraph -> class_ -> class_ -> option (list class_))
        (getattr : pyobj -> string -> result pyobj)
        (self : RelationshipGraph) (start end_ : pyobj) (raise_err : bool)
        (path : list string) :
  get_path sp self start end_ raise_err = Ok (Some path) ->
  traverse sp getattr self start end_ raise_err =
  (y <- read_chain getattr start path ;;
   Ok (if support_plurality self then Instances [y] else Object y)).
Proof.
  intros Hp. unfold traverse. rewrite Hp. simpl.
  rewrite traverse_loop_single.
  destruct (read_chain getattr start path) as [y | e]; simpl; [| reflexivity].
  destruct (support_plurality self); reflexivity.
Qed.

Lemma traverse_reads_chain_witness :
  let m := DeclarativeAttributeIntercept in
  traverse WalkSearch.shortest_path (Family.getattr m)
           (init (Family.base m) true)
           (OClass (Family.Grandparent m)) (OClass (Family.Child m)) false =
  (y <- read_chain (Family.getattr m) (OClass (Family.Grandparent m))
                   ["parent"; "child"] ;;
   Ok (if support_plurality (init (Family.base m) true)
       then Instances [y] else Object y)).
Proof.
  cbv zeta.
  apply (@traverse_reads_chain WalkSearch.shortest_path
           (Family.getattr DeclarativeAttributeIntercept)
           (init (Family.base DeclarativeAttributeIntercept) true)).
  vm_compute. reflexivity.
Defined.

(** X15.  [traverse] returns [None] in two cases and no other: when
    [get_path] returns the absent value, and when [support_plurality] is
    false, [get_path] finds a path and the last read along it gives
    [None]; the returned [None] does not tell the two apart.  Whatever
    [get_path] raises, [traverse] raises. *)
Theorem traverse_none
        (sp : DiGraph -> class_ -> class_ -> option (list class_))
        (getattr : pyobj -> string -> result pyobj)
        (self : RelationshipGraph) (start end_ : pyobj) (raise_err : bool) :
  (traverse sp getattr self start end_ raise_err = Ok (Object ONone) <->
   get_path sp self start end_ raise_err = Ok None \/
   (support_plurality self = false /\
    exists path, get_path sp self start end_ raise_err = Ok (Some path) /\
                 read_chain getattr start path = Ok ONone)) /\
  (forall e, get_path sp self start end_ raise_err = Raise e ->
             traverse sp getattr self start end_ raise_err = Raise e).
Proof.
  unfold traverse.
  destruct (get_path sp self start end_ raise_err) as [[path |] | e0]; simpl.
  - split; [| intros e He; discriminate He].
    rewrite traverse_loop_single.
    destruct (read_chain getattr start path) as [y | e] eqn:Hy; simpl.
    + destruct (support_plurality self); split.
      * intros He; discriminate He.
      * intros [He | [He _]]; discriminate He.
      * intros [= ->]. right. split; [reflexivity |]. exists path. auto.
      * intros [He | [_ (path' & [= <-] & Hr)]]; [discriminate He |].
        rewrite Hy in Hr. inversion Hr. reflexivity.
    + split.
      * intros He; discriminate He.
      * intros [He | [_ (path' & [= <-] & Hr)]]; [discriminate He |].
        rewrite Hy in Hr. discriminate Hr.
  - split; [| intros e He; discriminate He].
    split; [intros _; now left | reflexivity].
  - split; [| intros e He; inversion He; reflexivity].
    split; [intros He; discriminate He |].
    intros [He | [_ (path' & He & _)]]; discriminate He.
Qed.

(** X16.  [traverse] returns only for a start that is itself a class, a
    node of the graph, and no instance of [DeclarativeMeta]: given an
    instance of a mapped class, or a class made by [declarative_base()],
    it raises before any attribute is read. *)
Theorem traverse_accepted_start
        (sp : DiGraph -> class_ -> class_ -> option (list class_))
        (getattr : pyobj -> string -> result pyobj)
        (self : RelationshipGraph) (start end_ : pyobj) (raise_err : bool)
        (res : traversed) :
  traverse sp getattr self start end_ raise_err = Ok res ->
  exists g s, relationship_graph self = Some g /\ start = OClass s /\
              isinstance_meta start DeclarativeMeta = false /\
              In s (nodes g).
Proof.
  unfold traverse.
  destruct (get_path sp self start end_ raise_err) as [r | e] eqn:Hg; simpl;
    [| intros He; discriminate He].
  intros _. apply get_path_ok_inv in Hg.
  destruct Hg as (g & s & t & Hg & Hs & _).
  apply node_of_some in Hs. destruct Hs as [Hs Hins].
  apply resolve_start_class_inv in Hs. destruct Hs as [Hs Hm].
  exists g, s. auto.
Qed.

Lemma traverse_accepted_start_witness :
  (let m := BuiltinType in
   exists g s, relationship_graph (init (Family.base m) false) = Some g /\
               OClass (Family.Child m) = OClass s /\
               isinstance_meta (OClass (Family.Child m)) DeclarativeMeta =
               false /\
               In s (nodes g)) /\
  (let m := DeclarativeAttributeIntercept in
   exists g s, relationship_graph (init (Family.base m) false) = Some g /\
               OClass (Family.Child m) = OClass s /\
               isinstance_meta (OClass (Family.Child m)) DeclarativeMeta =
               false /\
               In s (nodes g)).
Proof.
  cbv zeta. split.
  - apply (@traverse_accepted_start WalkSearch.shortest_path
             (Family.getattr BuiltinType)
             (init (Family.base BuiltinType) false)
             (OClass (Family.Child BuiltinType))
             (OClass (Family.Parent BuiltinType)) false
             (Object (OAttr (Family.Child BuiltinType) "parent"))).
    vm_compute. reflexivity.
  - apply (@traverse_accepted_start WalkSearch.shortest_path
             (Family.getattr DeclarativeAttributeIntercept)
             (init (Family.base DeclarativeAttributeIntercept) false)
             (OClass (Family.Child DeclarativeAttributeIntercept))
             (OClass (Family.Parent DeclarativeAttributeIntercept)) false
             (Object (OAttr (Family.Child DeclarativeAttributeIntercept)
                            "parent"))).
    vm_compute. reflexivity.
Defined.
